(** * IRL booking service: validators, rate limiter and request dispatchers

    A shallow embedding of [lib/validators.js], [api/mcp.js] (the HTTP
    handler) and [index.js] (the stdio MCP server), with the properties
    the specification states about them.

    Conventions of the embedding.
    - A JavaScript string is a list of code units; the model keeps the
      code units U+0000..U+00FF, one [ascii] each (Latin-1).
    - A JavaScript value that reaches a validator is a [JsValue].
    - [Date.now()] and [Math.random()] are inputs of the functions that
      read them; the mail transport is an oracle the dispatchers call. *)

From Stdlib Require Import ZArith Ascii String List Bool Lia.
From stdpp Require Import gmap strings list.

Local Open Scope Z_scope.

(** ** JavaScript strings *)

Module Js.

Definition str := list ascii.

Definition lit (s : string) : str := list_ascii_of_string s.

Definition code (c : ascii) : nat := nat_of_ascii c.

Definition between (lo hi : nat) (c : ascii) : bool :=
  (Nat.leb lo (code c)) && (Nat.leb (code c) hi).

Definition is_digit (c : ascii) : bool := between 48 57 c.
Definition is_upper (c : ascii) : bool := between 65 90 c.
Definition is_lower (c : ascii) : bool := between 97 122 c.
Definition is_letter (c : ascii) : bool := is_upper c || is_lower c.

(** [\w] is [A-Za-z0-9_]. *)
Definition is_word (c : ascii) : bool :=
  is_letter c || is_digit c || Nat.eqb (code c) 95.

(** [\s], and the characters [trim] removes: TAB, LF, VT, FF, CR, SPACE
    and NO-BREAK SPACE (the white space and line terminators below
    U+0100). *)
Definition is_space (c : ascii) : bool :=
  between 9 13 c || Nat.eqb (code c) 32 || Nat.eqb (code c) 160.

(** Line terminators, which [.] does not match. *)
Definition is_line_terminator (c : ascii) : bool :=
  Nat.eqb (code c) 10 || Nat.eqb (code c) 13.

Definition char_eqb (a b : ascii) : bool := Ascii.eqb a b.

(** [String.prototype.toLowerCase] on U+0000..U+00FF: [A-Z] and the
    upper-case letters U+00C0..U+00DE (U+00D7 is the multiplication sign)
    move up by 32. *)
Definition to_lower_char (c : ascii) : ascii :=
  if is_upper c || (between 192 222 c && negb (Nat.eqb (code c) 215))
  then ascii_of_nat (code c + 32) else c.

Definition toLowerCase (s : str) : str := map to_lower_char s.

(** Canonicalisation of the [i] flag, for the ASCII letters the patterns
    are written with: a code unit above U+007F never folds to an ASCII
    letter. *)
Definition fold_char (c : ascii) : ascii :=
  if is_lower c then ascii_of_nat (code c - 32) else c.

Fixpoint drop_spaces (s : str) : str :=
  match s with
  | c :: s' => if is_space c then drop_spaces s' else s
  | [] => []
  end.

Definition trim (s : str) : str := rev (drop_spaces (rev (drop_spaces s))).

Definition len (s : str) : Z := Z.of_nat (length s).

(** [s.slice(0, e)]: a negative [e] counts from the end. *)
Definition slice0 (s : str) (e : Z) : str :=
  let stop := if e <? 0 then Z.max (len s + e) 0 else Z.min e (len s) in
  take (Z.to_nat stop) s.

(** [s.slice(b)] and [s.slice(b, e)] for literal bounds [0 <= b <= e]. *)
Definition slice_from (s : str) (b : nat) : str := drop b s.
Definition slice (s : str) (b e : nat) : str := take (e - b) (drop b s).

Fixpoint prefix_of (p s : str) : bool :=
  match p, s with
  | [], _ => true
  | a :: p', b :: s' => char_eqb a b && prefix_of p' s'
  | _ :: _, [] => false
  end.

Definition startsWith (s p : str) : bool := prefix_of p s.

Definition endsWith (s p : str) : bool := prefix_of (rev p) (rev s).

Fixpoint includes (s p : str) : bool :=
  prefix_of p s ||
  match s with
  | [] => false
  | _ :: s' => includes s' p
  end.

(** [s.split(sep)] for a one-character separator. *)
Fixpoint split_on (sep : ascii) (s : str) : list str :=
  match s with
  | [] => [[]]
  | c :: s' =>
      if char_eqb c sep then [] :: split_on sep s'
      else match split_on sep s' with
           | w :: ws => (c :: w) :: ws
           | [] => [[c]]
           end
  end.

(** The values that can stand where the code expects a string.  Numbers
    are kept as integers and objects (arrays included) as one opaque
    value: the code only asks for their type and their truthiness. *)
Inductive JsValue :=
| JUndefined
| JNull
| JBool (b : bool)
| JNum (n : Z)
| JStr (s : str)
| JObj.

Definition truthy (v : JsValue) : bool :=
  match v with
  | JUndefined | JNull => false
  | JBool b => b
  | JNum n => negb (n =? 0)
  | JStr s => match s with [] => false | _ => true end
  | JObj => true
  end.

Definition is_string (v : JsValue) : bool :=
  match v with JStr _ => true | _ => false end.

(** A call either returns or throws. *)
Inductive JsError := TypeError.

Inductive Completion (A : Type) :=
| Return (a : A)
| Throw (e : JsError).
Arguments Return {A} a.
Arguments Throw {A} e.

End Js.

(** ** Regular expressions

    A backtracking matcher with the priorities of ECMAScript: a sequence
    is tried left to right, an alternation left branch first, a star is
    greedy and gives up an iteration that consumed nothing. *)

Module Regex.
Import Js.

Inductive regex :=
| Eps
| Chr (p : ascii -> bool)
| Seq (r1 r2 : regex)
| Alt (r1 r2 : regex)
| Star (r : regex)
| NotAhead (r : regex)
| WordB
| Bos
| Eos.

(** The position in the subject: the character before it, if any, and
    the characters from it on. *)
Definition cursor := (option ascii * str)%type.

Definition word_before (c : cursor) : bool :=
  match fst c with Some a => is_word a | None => false end.

Definition word_after (c : cursor) : bool :=
  match snd c with a :: _ => is_word a | [] => false end.

(** The loop of a star whose body is matched by [step].  Each iteration
    tries the body first and falls back on the continuation [k]; an
    iteration that ends where it began is refused.  [fuel] bounds the
    number of iterations by the number of characters left. *)
Fixpoint star_loop (step : cursor -> (cursor -> option nat) -> option nat)
    (k : cursor -> option nat) (fuel : nat) (c : cursor) : option nat :=
  match fuel with
  | O => k c
  | S fuel' =>
      match step c (fun c' =>
              if Nat.ltb (length (snd c')) (length (snd c))
              then star_loop step k fuel' c' else None) with
      | Some n => Some n
      | None => k c
      end
  end.

(** [run r c k]: match [r] at [c] and hand the position reached to [k];
    [None] is failure and makes the caller backtrack.  A result is the
    number of characters left after the whole match. *)
Fixpoint run (r : regex) (c : cursor) (k : cursor -> option nat) : option nat :=
  match r with
  | Eps => k c
  | Chr p =>
      match snd c with
      | a :: s => if p a then k (Some a, s) else None
      | [] => None
      end
  | Seq r1 r2 => run r1 c (fun c1 => run r2 c1 k)
  | Alt r1 r2 =>
      match run r1 c k with
      | Some n => Some n
      | None => run r2 c k
      end
  | Star r1 => star_loop (run r1) k (length (snd c)) c
  | NotAhead r1 =>
      match run r1 c (fun _ => Some O) with
      | Some _ => None
      | None => k c
      end
  | WordB => if xorb (word_before c) (word_after c) then k c else None
  | Bos => match fst c with None => k c | Some _ => None end
  | Eos => match snd c with [] => k c | _ :: _ => None end
  end.

(** Length of the match of [r] that starts right after [prev], at the
    head of [s]. *)
Definition match_len (r : regex) (prev : option ascii) (s : str) : option nat :=
  match run r (prev, s) (fun c' => Some (length (snd c'))) with
  | Some rest => Some (length s - rest)%nat
  | None => None
  end.

(** [re.test(s)] for a pattern without the [g] flag: the first position
    from the left where the pattern matches decides. *)
Fixpoint test_from (r : regex) (prev : option ascii) (s : str) : bool :=
  match match_len r prev s with
  | Some _ => true
  | None =>
      match s with
      | [] => false
      | a :: s' => test_from r (Some a) s'
      end
  end.

Definition test (r : regex) (s : str) : bool := test_from r None s.

(** [s.replace(re, '')] for a pattern with the [g] flag.  [skip] counts
    the characters of the current match still to be dropped; after an
    empty match the scan moves one character on. *)
Fixpoint remove_from (r : regex) (skip : nat) (prev : option ascii) (s : str) : str :=
  match s with
  | [] => []
  | a :: s' =>
      match skip with
      | S k => remove_from r k (Some a) s'
      | O =>
          match match_len r prev s with
          | Some (S n) => remove_from r n (Some a) s'
          | _ => a :: remove_from r O (Some a) s'
          end
      end
  end.

Definition remove_all (r : regex) (s : str) : str := remove_from r O None s.

(** Pattern syntax. *)
Infix "+>" := Seq (at level 60, right associativity).

Definition chr (a : ascii) : regex := Chr (char_eqb a).
Definition chr_i (a : ascii) : regex := Chr (fun x => char_eqb (fold_char x) (fold_char a)).
Definition not_chr (a : ascii) : regex := Chr (fun x => negb (char_eqb a x)).
Definition dot : regex := Chr (fun x => negb (is_line_terminator x)).
Definition plus (r : regex) : regex := Seq r (Star r).

Fixpoint seq_of (f : ascii -> regex) (s : str) : regex :=
  match s with
  | [] => Eps
  | [a] => f a
  | a :: s' => Seq (f a) (seq_of f s')
  end.

(** A literal word, and the same under the [i] flag. *)
Definition word (s : string) : regex := seq_of chr (lit s).
Definition word_i (s : string) : regex := seq_of chr_i (lit s).

Definition dquote : ascii := ascii_of_nat 34.

End Regex.

(** ** lib/validators.js *)

Module Validators.
Import Js Regex.

(** The first [replace] of [sanitizeString], flags [gi]:
    [<script\b[^<]*] then any number of [(?!<\/script>)<[^<]*] then
    [<\/script>]. *)
Definition re_script : regex :=
  word_i "<script" +> WordB +> Star (not_chr "<") +>
  Star (NotAhead (word_i "</script>") +> chr "<" +> Star (not_chr "<")) +>
  word_i "</script>".

(** The second one, flags [gi]: [<style\b[^<]*] then any number of
    [(?!<\/style>)<[^<]*] then [<\/style>]. *)
Definition re_style : regex :=
  word_i "<style" +> WordB +> Star (not_chr "<") +>
  Star (NotAhead (word_i "</style>") +> chr "<" +> Star (not_chr "<")) +>
  word_i "</style>".

(** [/<[^>]*>/g] *)
Definition re_tag : regex := chr "<" +> Star (not_chr ">") +> chr ">".

(** The class of [<], [>], the double quote and the apostrophe. *)
Definition is_special (c : ascii) : bool :=
  char_eqb c "<" || char_eqb c ">" || char_eqb c dquote || char_eqb c "'".

(** That class, flag [g]. *)
Definition re_special : regex := Chr is_special.

(** [/javascript:/gi] *)
Definition re_javascript : regex := word_i "javascript:".

(** [/on\w+\s*=/gi] *)
Definition re_handler : regex :=
  word_i "on" +> plus (Chr is_word) +> Star (Chr is_space) +> chr "=".

Definition sanitizeString (v : JsValue) (maxLength : Z) : str :=
  match v with
  | JStr s =>
      let cleaned :=
        slice0
          (trim
             (remove_all re_handler
                (remove_all re_javascript
                   (remove_all re_special
                      (remove_all re_tag
                         (remove_all re_style
                            (remove_all re_script s)))))))
          maxLength in
      cleaned
  | _ => []
  end.

(** The default [maxLength = 200]. *)
Definition sanitizeString_default (v : JsValue) : str := sanitizeString v 200.

Record PhoneResult := { valid : bool; cleaned : option str }.

Definition phone_invalid : PhoneResult := {| valid := false; cleaned := None |}.

(** [/\D/g] *)
Definition re_non_digit : regex := Chr (fun c => negb (is_digit c)).

(** [s[0] === c] *)
Definition first_is (s : str) (c : ascii) : bool :=
  match s with
  | a :: _ => char_eqb a c
  | [] => false
  end.

Definition validatePhone (phone : JsValue) : PhoneResult :=
  match phone with
  | JStr p =>
      let cleaned := remove_all re_non_digit p in
      let cleaned :=
        if Nat.eqb (length cleaned) 11 && first_is cleaned "1"
        then slice_from cleaned 1 else cleaned in
      if negb (Nat.eqb (length cleaned) 10) then phone_invalid
      else if first_is cleaned "0" || first_is cleaned "1" then phone_invalid
      else if startsWith (trim p) (lit "-") then phone_invalid
      else
        let formatted :=
          slice cleaned 0 3 ++ lit "-" ++ slice cleaned 3 6 ++ lit "-" ++
          slice_from cleaned 6 in
        {| valid := true; cleaned := Some formatted |}
  | _ => phone_invalid
  end.

Definition sfIndicators : list string :=
  ["sf"; "san francisco"; "sanfrancisco"; "s.f."; "san fran"]%string.

(** The pattern [new RegExp] builds from an indicator.  A string pattern
    makes [indicator.replace('.', '\.')] escape the first dot only: a
    later dot stays the wildcard [.]. *)
Fixpoint indicator_body (escaped : bool) (s : str) : regex :=
  match s with
  | [] => Eps
  | a :: s' =>
      if char_eqb a "."
      then (if escaped then dot else chr ".") +> indicator_body true s'
      else chr a +> indicator_body escaped s'
  end.

(** [`\b${...}\b`] *)
Definition indicator_regex (indicator : string) : regex :=
  WordB +> indicator_body false (lit indicator) +> WordB.

(** [/\b94(1[0-8]\d|0\d{2})\b/] *)
Definition re_zip : regex :=
  WordB +> word "94" +>
  Alt (chr "1" +> Chr (between 48 56) +> Chr is_digit)
      (chr "0" +> Chr is_digit +> Chr is_digit) +>
  WordB.

Definition validateSFAddress (address : JsValue) : bool :=
  match address with
  | JStr a =>
      let addr := toLowerCase a in
      let hasSFText :=
        existsb (fun indicator => test (indicator_regex indicator) addr)
                sfIndicators in
      let hasSFZip := test re_zip addr in
      hasSFText || hasSFZip
  | _ => false
  end.

Record NameResult := { name_valid : bool; reason : option string }.

Definition name_invalid (why : string) : NameResult :=
  {| name_valid := false; reason := Some why |}.

(** The class of [a-zA-Z], [\s], [-] and the apostrophe. *)
Definition is_name_char (c : ascii) : bool :=
  is_letter c || is_space c || char_eqb c "-" || char_eqb c "'".

(** One or more characters of that class between [^] and [$]. *)
Definition re_name : regex := Bos +> plus (Chr is_name_char) +> Eos.

(** [/[a-zA-Z]/] *)
Definition re_letter : regex := Chr is_letter.

Definition validateName (name : JsValue) : NameResult :=
  match name with
  | JStr n =>
      let cleaned := trim n in
      if len cleaned <? 2 then name_invalid "Name too short"
      else if len cleaned >? 100 then name_invalid "Name too long"
      else if negb (test re_name cleaned)
      then name_invalid "Name contains invalid characters"
      else if includes cleaned (lit "--") || includes cleaned (lit "/*") ||
              includes cleaned (lit "*/") || includes cleaned (lit ";") ||
              includes (toLowerCase cleaned) (lit "drop") ||
              includes (toLowerCase cleaned) (lit "delete") ||
              includes (toLowerCase cleaned) (lit "union")
      then name_invalid "Name contains invalid characters"
      else if negb (test re_letter cleaned)
      then name_invalid "Name must contain letters"
      else {| name_valid := true; reason := None |}
  | _ => name_invalid "Name must be a string"
  end.

(** The class [[^\s@]]. *)
Definition is_email_char (c : ascii) : bool :=
  negb (is_space c || char_eqb c "@").

(** [/^[^\s@]+@[^\s@]+\.[^\s@]+$/] *)
Definition emailRegex : regex :=
  Bos +> plus (Chr is_email_char) +> chr "@" +> plus (Chr is_email_char) +>
  chr "." +> plus (Chr is_email_char) +> Eos.

Definition validateEmail (email : JsValue) : bool :=
  match email with
  | JStr e =>
      let basicValid := test emailRegex (trim e) in
      if negb basicValid then false
      else
        match split_on "@" e with
        | [local; domain] =>
            if len local >? 64 then false
            else if len domain >? 255 then false
            else if startsWith domain (lit ".") || endsWith domain (lit ".")
            then false
            else if includes domain (lit "..") then false
            else true
        | _ => false
        end
  | _ => false
  end.

End Validators.

(** ** The [RateLimiter] class of lib/validators.js

    [requests] is the [Map] from identifier to the array of admitted
    timestamps.  Any JavaScript value can be a key ([undefined] too), so
    the key type is a parameter.  The reading of [Date.now()] is the
    argument [now]; [sweep] is [Some t] when [Math.random()] falls below
    0.01, [t] being the clock reading [cleanup] then takes. *)

Module RateLimiting.
Section RateLimiter.
Context `{Countable K}.

Record RateLimiter := {
  limit : Z;
  windowMs : Z;
  requests : gmap K (list Z)
}.

Definition new (limit windowMs : Z) : RateLimiter :=
  {| limit := limit; windowMs := windowMs; requests := ∅ |}.

(** The defaults of the constructor. *)
Definition new_default : RateLimiter := new 10 60000.

Definition with_requests (rl : RateLimiter) (m : gmap K (list Z)) : RateLimiter :=
  {| limit := limit rl; windowMs := windowMs rl; requests := m |}.

(** [l.filter(time => now - time < this.windowMs)] *)
Definition recent (rl : RateLimiter) (now : Z) (l : list Z) : list Z :=
  filter (fun time => now - time < windowMs rl) l.

(** [this.requests.get(identifier) || []] *)
Definition requests_of (rl : RateLimiter) (identifier : K) : list Z :=
  default [] (requests rl !! identifier).

Definition cleanup (now : Z) (rl : RateLimiter) : RateLimiter :=
  with_requests rl
    (omap (fun reqs =>
             match recent rl now reqs with
             | [] => None
             | r => Some r
             end) (requests rl)).

Definition checkLimit (identifier : K) (now : Z) (sweep : option Z)
    (rl : RateLimiter) : bool * RateLimiter :=
  let userRequests := requests_of rl identifier in
  let recentRequests := recent rl now userRequests in
  if limit rl <=? Z.of_nat (length recentRequests) then (false, rl)
  else
    let rl' :=
      with_requests rl (<[identifier := recentRequests ++ [now]]> (requests rl)) in
    (true, match sweep with
           | Some t => cleanup t rl'
           | None => rl'
           end).

Definition reset (identifier : K) (rl : RateLimiter) : RateLimiter :=
  with_requests rl (delete identifier (requests rl)).

Definition getRemaining (identifier : K) (now : Z) (rl : RateLimiter) : Z :=
  let userRequests := requests_of rl identifier in
  let recentRequests := recent rl now userRequests in
  Z.max 0 (limit rl - Z.of_nat (length recentRequests)).

(** A history of method calls on one limiter. *)
Inductive call :=
| CheckLimit (identifier : K) (now : Z) (sweep : option Z)
| Cleanup (now : Z)
| Reset (identifier : K)
| GetRemaining (identifier : K) (now : Z).

Definition exec (c : call) (rl : RateLimiter) : RateLimiter :=
  match c with
  | CheckLimit i now sweep => snd (checkLimit i now sweep rl)
  | Cleanup now => cleanup now rl
  | Reset i => reset i rl
  | GetRemaining _ _ => rl
  end.

Fixpoint exec_all (cs : list call) (rl : RateLimiter) : RateLimiter :=
  match cs with
  | [] => rl
  | c :: cs' => exec_all cs' (exec c rl)
  end.

(** The clock readings a call takes. *)
Definition clock_readings (c : call) : list Z :=
  match c with
  | CheckLimit _ now sweep => now :: match sweep with Some t => [t] | None => [] end
  | Cleanup now => [now]
  | Reset _ => []
  | GetRemaining _ now => [now]
  end.

Definition resets (identifier : K) (c : call) : bool :=
  match c with
  | Reset i => bool_decide (i = identifier)
  | _ => false
  end.

(** 1 when [c] is a call [checkLimit(identifier)] that returned [true] at
    a time within [windowMs] of [now], else 0. *)
Definition admitted_within (identifier : K) (now : Z) (c : call)
    (rl : RateLimiter) : nat :=
  match c with
  | CheckLimit i t sweep =>
      if bool_decide (i = identifier) && fst (checkLimit i t sweep rl) &&
         bool_decide (now - t < windowMs rl)
      then 1%nat else 0%nat
  | _ => 0%nat
  end.

(** How many calls of the history [cs], run from [rl], were such calls. *)
Fixpoint count_admitted_within (identifier : K) (now : Z) (cs : list call)
    (rl : RateLimiter) : nat :=
  match cs with
  | [] => 0%nat
  | c :: cs' =>
      (admitted_within identifier now c rl +
       count_admitted_within identifier now cs' (exec c rl))%nat
  end.

(** The oldest timestamp of an array: its least element. *)
Definition oldest (l : list Z) : option Z :=
  match l with
  | [] => None
  | t :: l' => Some (foldr Z.min t l')
  end.

(** No array of the map is longer than the capacity. *)
Definition bounded (rl : RateLimiter) : Prop :=
  forall i l, requests rl !! i = Some l -> Z.of_nat (length l) <= limit rl.

End RateLimiter.
End RateLimiting.

(** ** Shapes the two dispatchers share *)

Module Booking.
Import Js.

Record ToolArguments := { name : JsValue; phone : JsValue; address : JsValue }.

(** [params.arguments || {}] *)
Definition arguments_or_empty (a : option ToolArguments) : ToolArguments :=
  match a with
  | Some args => args
  | None => {| name := JUndefined; phone := JUndefined; address := JUndefined |}
  end.

(** The argument of [resend.emails.send]: [text] and [html] are the fixed
    templates filled with the three customer fields and the time of the
    request. *)
Record Email := {
  from : str;
  to : list str;
  subject : string;
  customer_name : str;
  customer_phone : option str;
  customer_address : str
}.

(** What the mail transport does with a message: the promise resolves
    without or with an [error] field, rejects, or never settles. *)
Inductive SendOutcome := Delivered | Refused | Rejected | Pending.

Definition decline : string :=
  "Sorry, we only serve San Francisco currently. We're expanding - stay tuned!".

End Booking.

(** ** api/mcp.js: the HTTP handler

    Writes of response headers and console logging do not influence the
    control flow and are left out; the length of [JSON.stringify(req.body)]
    comes with the request. *)

Module Api.
Import Js Regex Booking.

Definition RATE_LIMIT : Z := 10.
Definition RATE_WINDOW : Z := 60000.

Definition checkRateLimit (ip : string) (now : Z)
    (requestStore : gmap string (list Z)) : bool * gmap string (list Z) :=
  let userRequests := default [] (requestStore !! ip) in
  let recentRequests := filter (fun time => now - time < RATE_WINDOW) userRequests in
  if RATE_LIMIT <=? Z.of_nat (length recentRequests) then (false, requestStore)
  else (true, <[ip := recentRequests ++ [now]]> requestStore).

(** [/<[^>]*>/g] *)
Definition re_tag : regex := chr "<" +> Star (not_chr ">") +> chr ">".

(** The class of [<], [>], the double quote and the apostrophe, flag [g]. *)
Definition re_special : regex := Chr Validators.is_special.

Definition sanitizeString (v : JsValue) (maxLength : Z) : str :=
  match v with
  | JStr s => slice0 (trim (remove_all re_special (remove_all re_tag s))) maxLength
  | _ => []
  end.

Record PhoneResult := { valid : bool; cleaned : option str }.

(** [/\D/g] *)
Definition re_non_digit : regex := Chr (fun c => negb (is_digit c)).

(** No [typeof] test here: [phone.replace] on anything but a string is a
    [TypeError]. *)
Definition validatePhone (phone : JsValue) : Completion PhoneResult :=
  match phone with
  | JStr p =>
      let cleaned := remove_all re_non_digit p in
      if negb (Nat.eqb (length cleaned) 10)
      then Return {| valid := false; cleaned := None |}
      else
        let formatted :=
          slice cleaned 0 3 ++ lit "-" ++ slice cleaned 3 6 ++ lit "-" ++
          slice_from cleaned 6 in
        Return {| valid := true; cleaned := Some formatted |}
  | _ => Throw TypeError
  end.

Definition sfIndicators : list string :=
  ["sf"; "san francisco"; "sanfrancisco"]%string.

(** [/94[01]\d{2}/] *)
Definition re_zip : regex :=
  word "94" +> Chr (between 48 49) +> Chr is_digit +> Chr is_digit.

(** No [typeof] test here either: [address.toLowerCase] needs a string. *)
Definition validateSFAddress (address : JsValue) : Completion bool :=
  match address with
  | JStr a =>
      let addr := toLowerCase a in
      let hasSFText :=
        existsb (fun indicator => includes addr (lit indicator)) sfIndicators in
      let hasSFZip := test re_zip addr in
      Return (hasSFText || hasSFZip)
  | _ => Throw TypeError
  end.

(** [process.env] *)
Record Env := {
  RESEND_API_KEY : option str;
  FROM_EMAIL : option str;
  PARTNER_EMAILS : option str
}.

(** [initResend()] returns a client when the key is set, else [null]. *)
Definition initResend (env : Env) : bool :=
  match RESEND_API_KEY env with
  | Some (_ :: _) => true
  | _ => false
  end.

(** [v || fallback] for an environment variable. *)
Definition env_or (v : option str) (fallback : str) : str :=
  match v with
  | Some (c :: s) => c :: s
  | _ => fallback
  end.

Inductive Payload :=
| ErrorBody (error : string)
| ContentBody (text : string)
| InitializeBody
| ToolsBody
| NoBody.

Record Response := { status : Z; payload : Payload }.

Definition json (code : Z) (p : Payload) : option Response :=
  Some {| status := code; payload := p |}.

Record Params := { tool : JsValue; arguments : option ToolArguments }.

Record Body := { method : JsValue; params : option Params }.

Record Request := {
  http_method : string;
  x_forwarded_for : option string;
  x_real_ip : option string;
  remoteAddress : option string;
  body : option Body;
  body_json_length : Z
}.

Definition header_or (v : option string) (fallback : string) : string :=
  match v with
  | Some (String c s) => String c s
  | _ => fallback
  end.

Definition clientIp (req : Request) : string :=
  header_or (x_forwarded_for req)
    (header_or (x_real_ip req) (header_or (remoteAddress req) "unknown")).

Definition internal_error : option Response :=
  json 500 (ErrorBody "Service temporarily unavailable. Please try again.").

(** The body of [if (method === 'tools/call' && ...)], the [try] with its
    [catch]: the response, if one is sent, and the messages handed to the
    transport. *)
Definition request_cleaning (env : Env) (notifier : Email -> SendOutcome)
    (args : ToolArguments) : option Response * list Email :=
  if negb (truthy (name args)) || negb (truthy (phone args)) ||
     negb (truthy (address args))
  then (json 400 (ErrorBody "Missing required fields: name, phone, and address"), [])
  else
    let cleanName := sanitizeString (name args) 100 in
    let cleanAddress := sanitizeString (address args) 200 in
    if len cleanName <? 2
    then (json 400 (ErrorBody "Invalid name provided"), [])
    else
      match validatePhone (phone args) with
      | Throw _ => (internal_error, [])
      | Return phoneValidation =>
          if negb (valid phoneValidation)
          then (json 400 (ErrorBody
                  "Invalid phone number. Please provide a 10-digit US phone number."), [])
          else
            match validateSFAddress (JStr cleanAddress) with
            | Throw _ => (internal_error, [])
            | Return inSF =>
                if negb inSF then (json 200 (ContentBody decline), [])
                else
                  (* const resend = initResend(); if (!resend) ... *)
                  if initResend env then
                    let fromEmail := env_or (FROM_EMAIL env) (lit "onboarding@resend.dev") in
                    let partnerEmails :=
                      env_or (PARTNER_EMAILS env) (lit "ranadaytoday@outlook.com") in
                    let email :=
                      {| from := fromEmail;
                         to := map trim (split_on "," partnerEmails);
                         subject := "Cleaning Request - SF";
                         customer_name := cleanName;
                         customer_phone := cleaned phoneValidation;
                         customer_address := cleanAddress |} in
                    (match notifier email with
                     | Delivered =>
                         json 200 (ContentBody
                           "Successfully booked the maid. Will get confirmation shortly.")
                     | Refused =>
                         json 500 (ErrorBody
                           "Failed to send booking request. Please try again.")
                     | Rejected => internal_error
                     | Pending => None
                     end, [email])
                  else (json 500 (ErrorBody "Email service temporarily unavailable"), [])
            end
      end.

Record Result := {
  response : option Response;
  sent : list Email;
  store : gmap string (list Z)
}.

Definition reply (r : option Response) (requestStore : gmap string (list Z)) : Result :=
  {| response := r; sent := []; store := requestStore |}.

Definition is_text (v : JsValue) (s : string) : bool :=
  match v with
  | JStr t => bool_decide (t = lit s)
  | _ => false
  end.

Definition handler (env : Env) (notifier : Email -> SendOutcome) (now : Z)
    (requestStore : gmap string (list Z)) (req : Request) : Result :=
  if bool_decide (http_method req = "OPTIONS"%string)
  then reply (json 200 NoBody) requestStore
  else if negb (bool_decide (http_method req = "POST"%string))
  then reply (json 405 (ErrorBody "Method not allowed")) requestStore
  else
    let (admitted, requestStore') := checkRateLimit (clientIp req) now requestStore in
    if negb admitted
    then reply (json 429 (ErrorBody "Too many requests. Please try again later."))
               requestStore'
    else
      match body req with
      | None => reply (json 400 (ErrorBody "Invalid request body")) requestStore'
      | Some b =>
          if body_json_length req >? 10000
          then reply (json 413 (ErrorBody "Request too large")) requestStore'
          else if is_text (method b) "initialize"
          then reply (json 200 InitializeBody) requestStore'
          else if is_text (method b) "tools/list"
          then reply (json 200 ToolsBody) requestStore'
          else
            match params b with
            | Some p =>
                if is_text (method b) "tools/call" && is_text (tool p) "request_cleaning"
                then
                  let (r, mails) :=
                    request_cleaning env notifier (arguments_or_empty (arguments p)) in
                  {| response := r; sent := mails; store := requestStore' |}
                else reply (json 400 (ErrorBody "Unknown method")) requestStore'
            | None => reply (json 400 (ErrorBody "Unknown method")) requestStore'
            end
      end.

End Api.

(** ** index.js: the stdio MCP server

    The environment is checked when the process starts, so the two mail
    settings are present when a request is handled.  There is no rate
    limiter in this file. *)

Module Server.
Import Js Regex Booking.

Definition sanitizeString (v : JsValue) (maxLength : Z) : str :=
  match v with
  | JStr s =>
      slice0 (trim (remove_all Api.re_special (remove_all Api.re_tag s))) maxLength
  | _ => []
  end.

Record PhoneResult := { valid : bool; cleaned : option str }.

Definition validatePhone (phone : JsValue) : PhoneResult :=
  match phone with
  | JStr p =>
      let cleaned := remove_all Api.re_non_digit p in
      if negb (Nat.eqb (length cleaned) 10)
      then {| valid := false; cleaned := None |}
      else
        let formatted :=
          slice cleaned 0 3 ++ lit "-" ++ slice cleaned 3 6 ++ lit "-" ++
          slice_from cleaned 6 in
        {| valid := true; cleaned := Some formatted |}
  | _ => {| valid := false; cleaned := None |}
  end.

Definition sfIndicators : list string :=
  ["sf"; "san francisco"; "sanfrancisco"]%string.

Definition validateSFAddress (address : JsValue) : bool :=
  match address with
  | JStr a =>
      let addr := toLowerCase a in
      let hasSFText :=
        existsb (fun indicator => includes addr (lit indicator)) sfIndicators in
      let hasSFZip := test Api.re_zip addr in
      hasSFText || hasSFZip
  | _ => false
  end.

Record Env := { FROM_EMAIL : str; PARTNER_EMAILS : str }.

Record Request := { tool : JsValue; arguments : option ToolArguments }.

Record Result := { text : string; sent : list Email }.

Definition reply (t : string) : Result := {| text := t; sent := [] |}.

(** The handler of [CallToolRequestSchema].  [Promise.race] against the
    10 s timer: a promise that resolves, with or without an [error]
    field, wins the race; one that rejects or never settles ends in the
    inner [catch]. *)
Definition call_tool (env : Env) (notifier : Email -> SendOutcome)
    (request : Request) : Result :=
  if Api.is_text (tool request) "request_cleaning"
  then
    let args := arguments_or_empty (arguments request) in
    if negb (truthy (name args)) || negb (truthy (phone args)) ||
       negb (truthy (address args))
    then reply "Error: All fields (name, phone, address) are required."
    else
      let cleanName := sanitizeString (name args) 100 in
      let cleanAddress := sanitizeString (address args) 200 in
      if len cleanName <? 2
      then reply "Error: Please provide a valid name (at least 2 characters)."
      else
        let phoneValidation := validatePhone (phone args) in
        if negb (valid phoneValidation)
        then reply "Error: Please provide a valid 10-digit US phone number."
        else if len cleanAddress <? 10
        then reply "Error: Please provide a complete address."
        else if negb (validateSFAddress (JStr cleanAddress))
        then reply decline
        else
          let email :=
            {| from := FROM_EMAIL env;
               to := map trim (split_on "," (PARTNER_EMAILS env));
               subject := "Cleaning Request - SF";
               customer_name := cleanName;
               customer_phone := cleaned phoneValidation;
               customer_address := cleanAddress |} in
          {| text :=
               match notifier email with
               | Delivered | Refused =>
                   "Successfully booked the maid. Will get confirmation shortly."
               | Rejected | Pending =>
                   "Booking received but email notification failed. The service will still process your request."
               end;
             sent := [email] |}
  else reply "Unknown tool requested.".

End Server.

(** ** Start-up of index.js

    [validateEnvironment()] runs when the module is loaded, before the
    handlers are registered: [process.exit(1)] ends the process there. *)

Module Startup.
Import Js Regex.

Inductive Outcome := Passed | Exit (code : Z).

(** [!process.env[key]]: the variable is unset or empty. *)
Definition missing_var (v : option str) : bool :=
  negb (truthy (match v with Some s => JStr s | None => JUndefined end)).

(** The literal of [validateEnvironment] is the one of [validateEmail]. *)
Definition emailRegex : regex := Validators.emailRegex.

Definition validateEnvironment (env : Api.Env) : Outcome :=
  let required :=
    [("RESEND_API_KEY"%string, Api.RESEND_API_KEY env);
     ("FROM_EMAIL"%string, Api.FROM_EMAIL env);
     ("PARTNER_EMAILS"%string, Api.PARTNER_EMAILS env)] in
  let missing := List.filter (fun key => missing_var (snd key)) required in
  if (0 <? length missing)%nat then Exit 1
  else
    match Api.FROM_EMAIL env, Api.PARTNER_EMAILS env with
    | Some from_email, Some partner_emails =>
        if negb (test emailRegex from_email) then Exit 1
        else
          let partnerEmails := split_on "," partner_emails in
          if forallb (fun email => test emailRegex (trim email)) partnerEmails
          then Passed
          else Exit 1
    | _, _ => Exit 1 (* not reached: both are set here *)
    end.

(** What the handler reads from [process.env] in a process that got past
    [validateEnvironment]. *)
Definition server_env (env : Api.Env) : option Server.Env :=
  match validateEnvironment env, Api.FROM_EMAIL env, Api.PARTNER_EMAILS env with
  | Passed, Some from_email, Some partner_emails =>
      Some {| Server.FROM_EMAIL := from_email;
              Server.PARTNER_EMAILS := partner_emails |}
  | _, _, _ => None
  end.

End Startup.

(** ** The HTTP handler over a sequence of requests

    [requestStore] is a module-level [Map]: it starts empty when the
    module is loaded and each request sees what the earlier ones left. *)

Module Traffic.
Import Js Booking RateLimiting.

(** A request as it arrives: the reading [Date.now()] gives while it is
    handled, what the mail transport will do, and the request. *)
Record Arrival := {
  at_time : Z;
  transport : Email -> SendOutcome;
  request : Api.Request
}.

Fixpoint serve (env : Api.Env) (arrivals : list Arrival)
    (requestStore : gmap string (list Z)) : list Api.Result :=
  match arrivals with
  | [] => []
  | a :: arrivals' =>
      let result := Api.handler env (transport a) (at_time a) requestStore (request a) in
      result :: serve env arrivals' (Api.store result)
  end.

(** The store after the whole sequence. *)
Fixpoint store_after (env : Api.Env) (arrivals : list Arrival)
    (requestStore : gmap string (list Z)) : gmap string (list Z) :=
  match arrivals with
  | [] => requestStore
  | a :: arrivals' =>
      store_after env arrivals'
        (Api.store (Api.handler env (transport a) (at_time a) requestStore (request a)))
  end.

(** The messages handed to the transport for the client [ip] by the
    requests that arrived within [RATE_WINDOW] of [now]. *)
Fixpoint emailed_within (ip : string) (now : Z) (env : Api.Env)
    (arrivals : list Arrival) (requestStore : gmap string (list Z)) : nat :=
  match arrivals with
  | [] => 0%nat
  | a :: arrivals' =>
      let result := Api.handler env (transport a) (at_time a) requestStore (request a) in
      let counted :=
        if bool_decide (Api.clientIp (request a) = ip) &&
           bool_decide (now - at_time a < Api.RATE_WINDOW)
        then length (Api.sent result) else 0%nat in
      (counted + emailed_within ip now env arrivals' (Api.store result))%nat
  end.

(** Whether the handler consults the rate limiter for a request: it does
    for every method but [OPTIONS] and those answered 405. *)
Definition rate_checked (req : Api.Request) : bool :=
  negb (bool_decide (Api.http_method req = "OPTIONS"%string)) &&
  bool_decide (Api.http_method req = "POST"%string).

(** The call on a [RateLimiter] a request amounts to. *)
Definition as_call (a : Arrival) : option (call (K := string)) :=
  if rate_checked (request a)
  then Some (CheckLimit (Api.clientIp (request a)) (at_time a) None)
  else None.

(** The store of the handler as a [RateLimiter]. *)
Definition limiter_of (requestStore : gmap string (list Z)) : RateLimiter (K := string) :=
  {| limit := Api.RATE_LIMIT; windowMs := Api.RATE_WINDOW; requests := requestStore |}.

End Traffic.

(** ** What a pattern matches

    The matches of a pattern as a relation between positions, against
    which the backtracking matcher is read: [matches r c c'] when [r] can
    match from [c] and end at [c']. *)

Module RegexMeaning.
Import Js Regex.

(** Zero or more steps of [R], each one moving on in the subject. *)
Inductive iterate (R : cursor -> cursor -> Prop) : cursor -> cursor -> Prop :=
| iterate_stop c : iterate R c c
| iterate_step c c1 c2 :
    R c c1 -> (length (snd c1) < length (snd c))%nat -> iterate R c1 c2 ->
    iterate R c c2.

Fixpoint matches (r : regex) (c c' : cursor) : Prop :=
  match r with
  | Eps => c' = c
  | Chr p => exists a s, snd c = a :: s /\ p a = true /\ c' = (Some a, s)
  | Seq r1 r2 => exists c1, matches r1 c c1 /\ matches r2 c1 c'
  | Alt r1 r2 => matches r1 c c' \/ matches r2 c c'
  | Star r1 => iterate (matches r1) c c'
  | NotAhead r1 => c' = c /\ ~ (exists c1, matches r1 c c1)
  | WordB => c' = c /\ xorb (word_before c) (word_after c) = true
  | Bos => c' = c /\ fst c = None
  | Eos => c' = c /\ snd c = []
  end.

(** The position after the prefix [pre] of a subject whose rest is
    [post], [prev] being the character before the subject. *)
Definition position (prev : option ascii) (pre post : str) : cursor :=
  (match last pre with Some a => Some a | None => prev end, post).

(** [r] matches somewhere in [s]. *)
Definition found (r : regex) (s : str) : Prop :=
  exists pre post c', s = pre ++ post /\ matches r (position None pre post) c'.

End RegexMeaning.

(** ** Characters a pattern cannot match without *)

Module RegexNeeds.
Import Js Regex.

Definition all_chars : list ascii := map ascii_of_nat (seq 0 256).

(** Every character of the class [p] is in the class [q]. *)
Definition class_within (p q : ascii -> bool) : bool :=
  forallb (fun a => implb (p a) (q a)) all_chars.

(** A sufficient test that every match of [r] takes a character of the
    class [q]. *)
Fixpoint needs (q : ascii -> bool) (r : regex) : bool :=
  match r with
  | Chr p => class_within p q
  | Seq r1 r2 => needs q r1 || needs q r2
  | Alt r1 r2 => needs q r1 && needs q r2
  | _ => false
  end.

End RegexNeeds.

(** * The vocabulary of the specification *)

(** ** Phone numbers *)

Module PhoneSpec.
Import Js Validators.

(** Strip all non-digit characters. *)
Definition digits_of (p : str) : str := List.filter is_digit p.

(** If exactly 11 digits remain and the leading digit is 1, drop it. *)
Definition without_country_code (d : str) : str :=
  match d with
  | a :: d' => if Nat.eqb (length d) 11 && char_eqb a "1" then d' else d
  | [] => []
  end.

Definition national_number (p : str) : str := without_country_code (digits_of p).

(** The form DDD-DDD-DDDD of ten digits. *)
Definition canonical (d : str) : str :=
  take 3 d ++ lit "-" ++ take 3 (drop 3 d) ++ lit "-" ++ drop 6 d.

Definition is_canonical (c : str) : Prop :=
  exists d0 d1 d2 d3 d4 d5 d6 d7 d8 d9,
    c = [d0; d1; d2; "-"; d3; d4; d5; "-"; d6; d7; d8; d9]%char /\
    Forall (fun d => is_digit d = true) [d0; d1; d2; d3; d4; d5; d6; d7; d8; d9].

(** Exactly 10 digits remain, the leading one is neither 0 nor 1, and the
    trimmed input does not begin with [-]. *)
Definition acceptable (p : str) : Prop :=
  length (national_number p) = 10%nat /\
  (forall a, head (national_number p) = Some a -> a <> "0"%char /\ a <> "1"%char) /\
  (forall rest, trim p <> "-"%char :: rest).

Definition acceptableb (p : str) : bool :=
  Nat.eqb (length (national_number p)) 10 &&
  negb (first_is (national_number p) "0" || first_is (national_number p) "1") &&
  negb (startsWith (trim p) (lit "-")).

End PhoneSpec.

(** ** Names *)

Module NameSpec.
Import Js.

(** [w] is a substring of [s]. *)
Definition occurs (w s : str) : Prop := exists pre post, s = pre ++ w ++ post.






End NameSpec.

(** ** Requests *)

Module DispatchSpec.
Import Js Booking.

(** A request that carries all three fields. *)
Definition complete (args : ToolArguments) : Prop :=
  truthy (name args) = true /\ truthy (phone args) = true /\
  truthy (address args) = true.

(** The HTTP request is a POST of [tools/call] for [request_cleaning]
    with the arguments [args].  Whether its body is within the 10000
    characters the handler allows is not part of this: the theorems state
    it where they need it. *)
Definition books (req : Api.Request) (args : ToolArguments) : Prop :=
  Api.http_method req = "POST"%string /\
  exists b p,
    Api.body req = Some b /\
    Api.method b = JStr (lit "tools/call") /\
    Api.params b = Some p /\
    Api.tool p = JStr (lit "request_cleaning") /\
    Api.arguments p = Some args.

End DispatchSpec.

(** ** The requests and histories of the test suite *)

Module Scenarios.
Import Js Regex Booking RateLimiting.

(** Calls on a limiter keyed by user name. *)
Definition history : list (call (K := string)) :=
  [CheckLimit "user1" 0 None; CheckLimit "user1" 10 (Some 10);
   CheckLimit "user2" 20 None; CheckLimit "user1" 30 None]%string.

Definition env : Api.Env :=
  {| Api.RESEND_API_KEY := Some (lit "test_key");
     Api.FROM_EMAIL := Some (lit "test@example.com");
     Api.PARTNER_EMAILS := Some (lit "partner@example.com") |}.

Definition server_env : Server.Env :=
  {| Server.FROM_EMAIL := lit "test@example.com";
     Server.PARTNER_EMAILS := lit "partner@example.com" |}.

Definition delivers (_ : Email) : SendOutcome := Delivered.

Definition booking (n p a : JsValue) : ToolArguments :=
  {| name := n; phone := p; address := a |}.

(** The POST the integration tests make. *)
Definition post (args : ToolArguments) : Api.Request :=
  {| Api.http_method := "POST";
     Api.x_forwarded_for := None;
     Api.x_real_ip := None;
     Api.remoteAddress := Some "127.0.0.1"%string;
     Api.body :=
       Some {| Api.method := JStr (lit "tools/call");
               Api.params :=
                 Some {| Api.tool := JStr (lit "request_cleaning");
                         Api.arguments := Some args |} |};
     Api.body_json_length := 180 |}.

Definition call (args : ToolArguments) : Server.Request :=
  {| Server.tool := JStr (lit "request_cleaning");
     Server.arguments := Some args |}.

Definition john_doe : ToolArguments :=
  booking (JStr (lit "John Doe")) (JStr (lit "4155551234"))
          (JStr (lit "123 Market St, San Francisco, CA 94105")).

Definition jane_doe : ToolArguments :=
  booking (JStr (lit "Jane Doe")) (JStr (lit "5105551234"))
          (JStr (lit "456 Broadway, Oakland, CA 94607")).

Definition digits_in_name : ToolArguments :=
  booking (JStr (lit "John123")) (JStr (lit "0155551234"))
          (JStr (lit "123 Market St, San Francisco, CA 94105")).

(** The name of the test [sanitizes XSS attempts]. *)
Definition xss_name : str :=
  lit "<script>alert(" ++ [dquote] ++ lit "XSS" ++ [dquote] ++ lit ")</script>".

Definition xss_booking : ToolArguments :=
  booking (JStr xss_name) (JStr (lit "4155551234")) (JStr (lit "123 Market St, SF")).

Definition short_address : ToolArguments :=
  booking (JStr (lit "John Doe")) (JStr (lit "4155551234")) (JStr (lit "Oakland")).

Definition satisfy : str := lit "123 Satisfy St, Oakland".



Definition numeric_phone : ToolArguments :=
  booking (JStr (lit "John Doe")) (JNum 4155551234)
          (JStr (lit "123 Market St, San Francisco, CA 94105")).

(** The same request in a body of 10001 characters. *)
Definition oversized (req : Api.Request) : Api.Request :=
  {| Api.http_method := Api.http_method req;
     Api.x_forwarded_for := Api.x_forwarded_for req;
     Api.x_real_ip := Api.x_real_ip req;
     Api.remoteAddress := Api.remoteAddress req;
     Api.body := Api.body req;
     Api.body_json_length := 10001 |}.

(** Two bookings of one client, at times 0 and 1. *)
Definition two_bookings : list Traffic.Arrival :=
  [{| Traffic.at_time := 0; Traffic.transport := delivers;
      Traffic.request := post john_doe |};
   {| Traffic.at_time := 1; Traffic.transport := delivers;
      Traffic.request := post john_doe |}].

End Scenarios.

(** ** E-mail addresses *)

Module EmailSpec.
Import Js Validators.

(** The text [local@name.rest]: three non-empty parts without white
    space and without [@]. *)
Definition email_text (t : str) : Prop :=
  exists l m r,
    t = l ++ "@"%char :: m ++ "."%char :: r /\
    l <> [] /\ m <> [] /\ r <> [] /\
    forallb is_email_char l = true /\ forallb is_email_char m = true /\
    forallb is_email_char r = true.

(** The two parts around the only [@] of [e], within the length limits,
    the domain neither beginning nor ending with a dot and without two
    dots in a row. *)
Definition email_parts (e : str) : Prop :=
  exists local domain,
    e = local ++ "@"%char :: domain /\
    ~ In "@"%char local /\ ~ In "@"%char domain /\
    len local <= 64 /\ len domain <= 255 /\
    (forall rest, domain <> "."%char :: rest) /\
    (forall init, domain <> init ++ ["."%char]) /\
    ~ NameSpec.occurs (lit "..") domain.

End EmailSpec.

(** ** Sanitized messages *)

Module MessageSpec.
Import Js Booking PhoneSpec.

(** The customer fields of a message: the name and the address hold none
    of [<], [>], the double quote and the apostrophe and are at most 100
    and 200 characters long, the name at least 2; the phone is of the
    form DDD-DDD-DDDD; there is at least one recipient. *)
Definition well_formed_message (email : Email) : Prop :=
  (forall c, In c (customer_name email) \/ In c (customer_address email) ->
     Validators.is_special c = false) /\
  2 <= len (customer_name email) <= 100 /\
  len (customer_address email) <= 200 /\
  (exists c, customer_phone email = Some c /\ is_canonical c) /\
  to email <> [].

End MessageSpec.

(** ** Clean text *)

Module SanitizerSpec.
Import Js.

(** The characters [sanitizeString] of lib/validators.js looks for: the
    four special characters, the colon and the equals sign. *)
Definition is_markup (c : ascii) : bool :=
  Validators.is_special c || char_eqb c ":" || char_eqb c "=".

End SanitizerSpec.

(** ** Addresses of the region *)

Module ClassifierSpec.
Import Js Regex RegexMeaning NameSpec.

(** From [c] on the subject reads one of the texts [W], and [c'] is the
    position right after it. *)
Definition reads (W : str -> Prop) (c c' : cursor) : Prop :=
  exists w rest, W w /\ snd c = w ++ rest /\ c' = position (fst c) w rest.

Definition ends_word (pre : str) : bool :=
  match last pre with Some a => is_word a | None => false end.

Definition starts_word (post : str) : bool :=
  match post with a :: _ => is_word a | [] => false end.

(** [w] stands in [s] as a word of its own: no letter, digit or
    underscore right before it or right after it. *)
Definition whole_word (w s : str) : Prop :=
  exists pre post,
    s = pre ++ w ++ post /\ ends_word pre = false /\ starts_word post = false.

(** What the pattern built from the indicator [s.f.] finds: [s.f] as the
    beginning of a word, one more character that is no line terminator,
    and a word boundary after that character. *)
Definition abbreviation (s : str) : Prop :=
  exists pre x post,
    s = pre ++ lit "s.f" ++ x :: post /\ ends_word pre = false /\
    is_line_terminator x = false /\ xorb (is_word x) (starts_word post) = true.

(** The zip codes of the library: [940dd] and [9410d] to [9418d]. *)
Definition sf_zip (z : str) : Prop :=
  exists d4 d5,
    is_digit d5 = true /\
    (z = lit "941" ++ [d4; d5] /\ between 48 56 d4 = true \/
     z = lit "940" ++ [d4; d5] /\ is_digit d4 = true).

Definition library_in_region (s : str) : Prop :=
  (exists w, In w [lit "sf"; lit "san francisco"; lit "sanfrancisco"; lit "san fran"] /\
             whole_word w s) \/
  abbreviation s \/
  (exists z, sf_zip z /\ whole_word z s).

(** The zip codes of the dispatchers: [940dd] and [941dd]. *)
Definition zip_like (z : str) : Prop :=
  exists d3 d4 d5,
    z = lit "94" ++ [d3; d4; d5] /\
    between 48 49 d3 = true /\ is_digit d4 = true /\ is_digit d5 = true.

Definition dispatcher_in_region (s : str) : Prop :=
  (exists w, In w [lit "sf"; lit "san francisco"; lit "sanfrancisco"] /\ occurs w s) \/
  (exists z, zip_like z /\ occurs z s).

End ClassifierSpec.

(** * Properties *)

(** ** Strings and patterns *)

Module RegexFacts.
Import Js Regex.

Lemma match_len_Chr p prev a s :
  match_len (Chr p) prev (a :: s) = if p a then Some 1%nat else None.
Proof.
  unfold match_len. cbn [run snd]. destruct (p a); [|done].
  f_equal. cbn [length]. lia.
Qed.

(** Removing the matches of a one-character class is a filter. *)
Lemma remove_all_Chr p s :
  remove_all (Chr p) s = List.filter (fun c => negb (p c)) s.
Proof.
  unfold remove_all. generalize (@None ascii).
  induction s as [|a s IH]; intros prev; [done|].
  cbn [remove_from List.filter]. rewrite match_len_Chr.
  destruct (p a); cbn [negb]; rewrite IH; done.
Qed.

(** Whatever the pattern, removing matches only deletes characters. *)
Lemma remove_from_sublist r skip prev s :
  sublist (remove_from r skip prev s) s.
Proof.
  revert skip prev. induction s as [|a s IH]; intros skip prev; cbn [remove_from].
  - constructor.
  - destruct skip as [|k].
    + destruct (match_len r prev (a :: s)) as [[|n]|].
      * apply sublist_skip, IH.
      * apply sublist_cons, IH.
      * apply sublist_skip, IH.
    + apply sublist_cons, IH.
Qed.

Lemma remove_all_sublist r s : sublist (remove_all r s) s.
Proof. apply remove_from_sublist. Qed.

Lemma drop_spaces_suffix s : exists pre, s = pre ++ drop_spaces s.
Proof.
  induction s as [|a s [pre IH]]; cbn [drop_spaces]; [by exists []|].
  destruct (is_space a).
  - exists (a :: pre). cbn. by rewrite <- IH.
  - by exists [].
Qed.

(** [trim] cuts a prefix and a suffix off. *)
Lemma trim_infix s : exists pre post, s = pre ++ trim s ++ post.
Proof.
  unfold trim.
  destruct (drop_spaces_suffix s) as [pre Hpre].
  destruct (drop_spaces_suffix (rev (drop_spaces s))) as [post Hpost].
  exists pre, (rev post).
  rewrite <- rev_app_distr, <- Hpost, rev_involutive. exact Hpre.
Qed.

Lemma trim_sublist s : sublist (trim s) s.
Proof.
  destruct (trim_infix s) as (pre & post & Hs). rewrite Hs at 2.
  apply sublist_inserts_l, sublist_inserts_r. reflexivity.
Qed.

Lemma slice0_sublist s e : sublist (slice0 s e) s.
Proof. unfold slice0. apply sublist_take. Qed.

Lemma slice0_length s e : 0 <= e -> len (slice0 s e) <= e.
Proof.
  intros He. unfold slice0, len.
  destruct (Z.ltb_spec e 0); [lia|].
  rewrite length_take. lia.
Qed.

(** A string that starts and ends with a visible character is its own
    trimmed form. *)
Lemma drop_spaces_visible a s : is_space a = false -> drop_spaces (a :: s) = a :: s.
Proof. intros Ha. cbn [drop_spaces]. by rewrite Ha. Qed.

Lemma includes_spec s p :
  includes s p = true <-> exists pre post, s = pre ++ p ++ post.
Proof.
  assert (Hpre : forall p s, prefix_of p s = true <-> exists post, s = p ++ post).
  { clear. induction p as [|a p IH]; intros s; cbn [prefix_of].
    - split; [eauto|done].
    - destruct s as [|b s].
      + split; [done|]. intros [post Hp]. discriminate.
      + rewrite andb_true_iff, IH. unfold char_eqb. rewrite Ascii.eqb_eq.
        split.
        * intros [-> [post ->]]. eauto.
        * intros [post Hp]. injection Hp as -> ->. eauto. }
  induction s as [|b s IH]; cbn [includes]; rewrite orb_true_iff, Hpre.
  - split.
    + intros [[post Hp]|]; [|done]. exists [], post. done.
    + intros (pre & post & Hp). left.
      destruct pre; [eauto|discriminate].
  - rewrite IH. split.
    + intros [[post Hp]|(pre & post & ->)].
      * exists [], post. done.
      * exists (b :: pre), post. done.
    + intros (pre & post & Hp). destruct pre as [|c pre].
      * left. eauto.
      * right. injection Hp as -> ->. eauto.
Qed.




End RegexFacts.

(** ** The sanitizer *)

Module SanitizerFacts.
Import Js Regex RegexFacts Validators.

Lemma is_special_false c :
  is_special c = false ->
  c <> "<"%char /\ c <> ">"%char /\ c <> dquote /\ c <> "'"%char.
Proof.
  unfold is_special, char_eqb. rewrite !orb_false_iff, !Ascii.eqb_neq. tauto.
Qed.

(** From the fourth [replace] on, no special character is left. *)
Lemma sanitized_chars s m c :
  In c (sanitizeString (JStr s) m) -> is_special c = false.
Proof.
  cbn [sanitizeString]. intros Hc.
  apply list_elem_of_In in Hc.
  apply (sublist_subseteq _ _ (slice0_sublist _ _)) in Hc.
  apply (sublist_subseteq _ _ (trim_sublist _)) in Hc.
  apply (sublist_subseteq _ _ (remove_all_sublist _ _)) in Hc.
  apply (sublist_subseteq _ _ (remove_all_sublist _ _)) in Hc.
  unfold re_special in Hc. rewrite remove_all_Chr in Hc.
  apply list_elem_of_In, filter_In in Hc. destruct Hc as [_ Hc].
  by apply negb_true_iff.
Qed.

(** C3, as the code has it: for every value [v] and every [maxLength]
    the result of [sanitizeString] holds none of [<], [>], the double
    quote and the apostrophe, and it is the empty string when [v] is not
    a string; for a [maxLength] that is not negative its length is at
    most [maxLength]. *)
Theorem sanitizeString_safe (v : JsValue) (maxLength : Z) :
  (forall c, In c (sanitizeString v maxLength) ->
     c <> "<"%char /\ c <> ">"%char /\ c <> dquote /\ c <> "'"%char) /\
  (0 <= maxLength -> len (sanitizeString v maxLength) <= maxLength) /\
  (is_string v = false -> sanitizeString v maxLength = []).
Proof.
  split; [|split].
  - intros c Hc. apply is_special_false.
    destruct v; try (cbn in Hc; contradiction).
    by eapply sanitized_chars.
  - intros Hm. destruct v; cbn [sanitizeString];
      try (unfold len; cbn [length]; lia).
    by apply slice0_length.
  - by destruct v.
Qed.

Lemma sanitizeString_safe_witness :
  len (sanitizeString (JStr (lit "  <b>Ann</b> O'Hara  ")) 5) <= 5 /\
  sanitizeString (JNum 7) 5 = [].
Proof.
  split.
  - apply (sanitizeString_safe (JStr (lit "  <b>Ann</b> O'Hara  ")) 5). lia.
  - apply (sanitizeString_safe (JNum 7) 5). reflexivity.
Defined.

(** C3 as stated fails for a negative [maxLength]: [slice(0, -1)] drops
    the last character only. *)
Lemma sanitizeString_negative_maxLength :
  sanitizeString (JStr (lit "abc")) (-1) = lit "ab" /\
  ~ (len (sanitizeString (JStr (lit "abc")) (-1)) <= -1).
Proof. split; [reflexivity | vm_compute; intros Hle; by apply Hle]. Qed.

End SanitizerFacts.

(** ** The phone validator *)

Module PhoneFacts.
Import Js Regex RegexFacts Validators PhoneSpec.

Lemma acceptableb_spec p : acceptableb p = true <-> acceptable p.
Proof.
  unfold acceptableb, acceptable.
  rewrite !andb_true_iff, !negb_true_iff, orb_false_iff, Nat.eqb_eq.
  assert (Hhead : first_is (national_number p) "0" = false /\
                  first_is (national_number p) "1" = false <->
                  forall a, head (national_number p) = Some a ->
                            a <> "0"%char /\ a <> "1"%char).
  { destruct (national_number p) as [|b d]; cbn [first_is head].
    - split; [intros _ a Ha; discriminate | done].
    - unfold char_eqb. split.
      + intros [H0 H1] a [= <-]. split; by apply Ascii.eqb_neq.
      + intros Hb. destruct (Hb b eq_refl). split; by apply Ascii.eqb_neq. }
  assert (Htrim : startsWith (trim p) (lit "-") = false <->
                  forall rest, trim p <> "-"%char :: rest).
  { unfold startsWith. destruct (trim p) as [|b t];
      cbn [prefix_of lit list_ascii_of_string].
    - split; [intros _ rest Hr; discriminate | done].
    - rewrite andb_true_r. unfold char_eqb. split.
      + intros Hb rest [= -> _]. by apply Ascii.eqb_neq in Hb.
      + intros Hb. apply Ascii.eqb_neq. intros <-. by apply (Hb t). }
  tauto.
Qed.

Lemma digits_of_remove p : remove_all re_non_digit p = digits_of p.
Proof.
  unfold re_non_digit, digits_of. rewrite remove_all_Chr.
  apply List.filter_ext. intros c. apply negb_involutive.
Qed.

(** The code, read against those words. *)
Lemma validatePhone_unfold p :
  validatePhone (JStr p) =
  if acceptableb p
  then {| valid := true; cleaned := Some (canonical (national_number p)) |}
  else phone_invalid.
Proof.
  unfold validatePhone, acceptableb, national_number. rewrite digits_of_remove.
  set (d := digits_of p).
  assert (Hcc : (if Nat.eqb (length d) 11 && first_is d "1" then slice_from d 1 else d)
                = without_country_code d).
  { destruct d as [|a d']; [done|]. cbn [first_is without_country_code]. done. }
  rewrite Hcc. set (n := without_country_code d).
  destruct (Nat.eqb (length n) 10); cbn [negb andb]; [|done].
  destruct (first_is n "0" || first_is n "1"); cbn [negb andb]; [done|].
  destruct (startsWith (trim p) (lit "-")); done.
Qed.

Lemma digits_of_all p : Forall (fun d => is_digit d = true) (digits_of p).
Proof.
  apply List.Forall_forall. intros c Hc. by apply filter_In in Hc as [_ Hc].
Qed.

Lemma national_number_digits p : Forall (fun d => is_digit d = true) (national_number p).
Proof.
  unfold national_number, without_country_code.
  pose proof (digits_of_all p) as Hd.
  destruct (digits_of p) as [|a d]; [done|].
  destruct (_ && _); [by inversion Hd | done].
Qed.

Lemma canonical_shape d :
  length d = 10%nat -> Forall (fun c => is_digit c = true) d -> is_canonical (canonical d).
Proof.
  intros Hlen Hd.
  do 10 (destruct d as [|? d]; [discriminate|]).
  destruct d; [|discriminate].
  unfold is_canonical. do 10 eexists. split; [reflexivity | exact Hd].
Qed.

(** C5: [validatePhone] strips the non-digits and drops the country code
    of an 11-digit number; it answers valid, with the form DDD-DDD-DDDD
    of the ten digits, exactly when ten digits remain, the first of them
    is neither 0 nor 1 and the trimmed input does not begin with [-];
    every other string gets [{valid: false, cleaned: null}]. *)
Theorem validatePhone_spec (p : str) :
  (valid (validatePhone (JStr p)) = true <-> acceptable p) /\
  (acceptable p ->
     validatePhone (JStr p) =
       {| valid := true; cleaned := Some (canonical (national_number p)) |} /\
     is_canonical (canonical (national_number p))) /\
  (~ acceptable p -> validatePhone (JStr p) = phone_invalid).
Proof.
  rewrite validatePhone_unfold, <- acceptableb_spec.
  destruct (acceptableb p) eqn:Hok.
  - split; [done|]. split; [|done]. intros _. split; [done|].
    apply canonical_shape; [|apply national_number_digits].
    unfold acceptableb in Hok. rewrite !andb_true_iff in Hok.
    destruct Hok as [[Hlen _] _]. by apply Nat.eqb_eq.
  - split; [done|]. split; [done|]. done.
Qed.

Lemma validatePhone_spec_witness :
  validatePhone (JStr (lit "+1 (415) 555-1234")) =
    {| valid := true; cleaned := Some (lit "415-555-1234") |} /\
  validatePhone (JStr (lit "-415-555-1234")) = phone_invalid.
Proof.
  split.
  - apply (validatePhone_spec (lit "+1 (415) 555-1234")).
    apply acceptableb_spec. reflexivity.
  - apply (validatePhone_spec (lit "-415-555-1234")).
    intros Hok. apply acceptableb_spec in Hok. discriminate.
Defined.

End PhoneFacts.

(** ** The canonical form is a fixed point of the phone validator *)

Module PhoneRoundTrip.
Import Js Regex RegexFacts Validators PhoneSpec PhoneFacts.

Lemma digit_visible a :
  is_digit a = true -> is_space a = false /\ char_eqb "-" a = false.
Proof.
  intros Ha. split; destruct a as [[] [] [] [] [] [] [] []];
    vm_compute in Ha |- *; congruence.
Qed.

Lemma drop_spaces_snoc x a :
  is_space a = false -> exists y, drop_spaces (x ++ [a]) = y ++ [a].
Proof.
  intros Ha. induction x as [|b x IH]; cbn [drop_spaces app].
  - rewrite Ha. by exists [].
  - destruct (is_space b); [exact IH | by exists (b :: x)].
Qed.

(** [trim] keeps a first character that is not white space. *)
Lemma trim_head a s : is_space a = false -> exists t, trim (a :: s) = a :: t.
Proof.
  intros Ha. unfold trim. rewrite drop_spaces_visible by done.
  cbn [rev]. destruct (drop_spaces_snoc (rev s) a Ha) as [y ->].
  exists (rev y). by rewrite rev_app_distr.
Qed.

Lemma canonical_revalidates d :
  length d = 10%nat ->
  Forall (fun c => is_digit c = true) d ->
  first_is d "0" || first_is d "1" = false ->
  validatePhone (JStr (canonical d)) =
    {| valid := true; cleaned := Some (canonical d) |}.
Proof.
  intros Hlen Hd Hfirst.
  do 10 (destruct d as [|? d]; [discriminate|]).
  destruct d; [|discriminate].
  repeat match goal with
         | H : Forall _ (_ :: _) |- _ => apply Forall_cons in H as [? H]
         end.
  rewrite validatePhone_unfold.
  assert (Hn : national_number
                 (canonical [a; a0; a1; a2; a3; a4; a5; a6; a7; a8]) =
               [a; a0; a1; a2; a3; a4; a5; a6; a7; a8]).
  { unfold national_number, digits_of, canonical.
    cbn [take drop app lit list_ascii_of_string List.filter].
    repeat match goal with
           | H : is_digit ?x = true |- _ => rewrite H; clear H
           end.
    change (is_digit "-") with false. cbn [without_country_code length Nat.eqb andb].
    reflexivity. }
  unfold acceptableb. rewrite Hn, Hfirst.
  destruct (digit_visible a) as [Hsp Hdash]; [done|].
  destruct (trim_head a
              ([a0; a1] ++ lit "-" ++ [a2; a3; a4] ++ lit "-" ++ [a5; a6; a7; a8]) Hsp)
    as [t Ht].
  change (canonical [a; a0; a1; a2; a3; a4; a5; a6; a7; a8]) with
    (a :: [a0; a1] ++ lit "-" ++ [a2; a3; a4] ++ lit "-" ++ [a5; a6; a7; a8]) at 1.
  rewrite Ht. unfold startsWith.
  cbn [prefix_of lit list_ascii_of_string length Nat.eqb andb negb].
  rewrite Hdash. reflexivity.
Qed.

(** C8: a phone number that [validatePhone] accepts is accepted again in
    its canonical form, and that form is returned unchanged; in
    particular [415-555-1234] validates to itself. *)
Theorem validatePhone_canonical_fixed :
  (forall (p c : str),
     validatePhone (JStr p) = {| valid := true; cleaned := Some c |} ->
     validatePhone (JStr c) = {| valid := true; cleaned := Some c |}) /\
  validatePhone (JStr (lit "415-555-1234")) =
    {| valid := true; cleaned := Some (lit "415-555-1234") |}.
Proof.
  split; [|reflexivity].
  intros p c Hp. rewrite validatePhone_unfold in Hp.
  destruct (acceptableb p) eqn:Hok; [|discriminate].
  injection Hp as <-.
  unfold acceptableb in Hok. rewrite !andb_true_iff in Hok.
  destruct Hok as [[Hlen Hfirst] _].
  apply canonical_revalidates.
  - by apply Nat.eqb_eq.
  - apply national_number_digits.
  - by apply negb_true_iff.
Qed.

Lemma validatePhone_canonical_fixed_witness :
  validatePhone (JStr (lit "628-555-0199")) =
    {| valid := true; cleaned := Some (lit "628-555-0199") |}.
Proof.
  apply (proj1 validatePhone_canonical_fixed (lit "+1 (628) 555.0199")).
  reflexivity.
Defined.

End PhoneRoundTrip.

(** ** The name validator *)

Module NameFacts.
Import Js Regex RegexFacts Validators NameSpec.










End NameFacts.

(** ** The rate limiter *)

Module RateLimiterFacts.
Import RateLimiting.

Section Facts.
Context `{Countable K}.
Implicit Types (rl : RateLimiter (K := K)) (c : call (K := K)) (l : list Z).

(** Timestamps outside the window of an earlier reading of the clock are
    outside the window of a later one. *)
Lemma recent_recent rl t now l :
  t <= now -> recent rl now (recent rl t l) = recent rl now l.
Proof.
  intros Ht. unfold recent. rewrite list_filter_filter.
  apply list_filter_iff. intros x. lia.
Qed.

Lemma recent_app rl now l1 l2 :
  recent rl now (l1 ++ l2) = recent rl now l1 ++ recent rl now l2.
Proof. apply filter_app. Qed.

Lemma recent_length rl now l : (length (recent rl now l) <= length l)%nat.
Proof. apply length_filter. Qed.

Lemma recent_window rl rl' now l :
  windowMs rl' = windowMs rl -> recent rl' now l = recent rl now l.
Proof. unfold recent. by intros ->. Qed.

Lemma exec_limit c rl : limit (exec c rl) = limit rl.
Proof.
  destruct c as [i t sweep| | |]; cbn [exec]; try done.
  unfold checkLimit. destruct (_ <=? _); [done|]. by destruct sweep.
Qed.

Lemma exec_windowMs c rl : windowMs (exec c rl) = windowMs rl.
Proof.
  destruct c as [i t sweep| | |]; cbn [exec]; try done.
  unfold checkLimit. destruct (_ <=? _); [done|]. by destruct sweep.
Qed.

Lemma exec_all_limit cs rl : limit (exec_all cs rl) = limit rl.
Proof.
  revert rl. induction cs as [|c cs IH]; intros rl; [done|].
  cbn [exec_all]. by rewrite IH, exec_limit.
Qed.

Lemma exec_all_windowMs cs rl : windowMs (exec_all cs rl) = windowMs rl.
Proof.
  revert rl. induction cs as [|c cs IH]; intros rl; [done|].
  cbn [exec_all]. by rewrite IH, exec_windowMs.
Qed.

(** What [cleanup] leaves of an identifier's array. *)
Lemma requests_of_cleanup rl t i :
  requests_of (cleanup t rl) i = recent rl t (requests_of rl i).
Proof.
  unfold requests_of, cleanup. cbn [requests with_requests].
  rewrite lookup_omap.
  destruct (requests rl !! i) as [l|]; cbn -[recent]; [|done].
  by destruct (recent rl t l).
Qed.

Lemma requests_of_insert rl i j l :
  requests_of (with_requests rl (<[i := l]> (requests rl))) j =
  if decide (i = j) then l else requests_of rl j.
Proof.
  unfold requests_of. cbn [requests with_requests].
  rewrite lookup_insert. by destruct (decide (i = j)).
Qed.

(** One call made no later than [now] adds to the identifier's
    timestamps within the window of [now] exactly what it admitted. *)
Lemma exec_count identifier now c rl :
  Forall (fun t => t <= now) (clock_readings c) ->
  resets identifier c = false ->
  length (recent rl now (requests_of (exec c rl) identifier)) =
  (length (recent rl now (requests_of rl identifier)) +
   admitted_within identifier now c rl)%nat.
Proof.
  intros Hclock Hreset.
  destruct c as [i t sweep|t|i|i t]; cbn [exec admitted_within].
  - cbn [clock_readings] in Hclock. apply Forall_cons in Hclock as [Ht Hsweep].
    unfold checkLimit.
    destruct (limit rl <=? _) eqn:Hfull; cbn [fst snd].
    { rewrite andb_false_r. cbn [andb]. lia. }
    set (rl' := with_requests rl _).
    assert (Hswept :
      recent rl now (requests_of (match sweep with
                                  | Some t0 => cleanup t0 rl'
                                  | None => rl'
                                  end) identifier)
      = recent rl now (requests_of rl' identifier)).
    { destruct sweep as [t0|]; [|done].
      apply Forall_cons in Hsweep as [Ht0 _].
      rewrite requests_of_cleanup.
      change (recent rl' t0) with (recent rl t0). by apply recent_recent. }
    rewrite Hswept. unfold rl'. rewrite requests_of_insert.
    destruct (decide (i = identifier)) as [->|Hne].
    + rewrite bool_decide_true by done. cbn [andb].
      rewrite recent_app, recent_recent, length_app by done.
      f_equal. unfold recent. rewrite filter_cons, filter_nil.
      destruct (decide (now - t < windowMs rl)) as [Hin|Hout].
      * by rewrite bool_decide_true.
      * by rewrite bool_decide_false.
    + rewrite bool_decide_false by done. cbn [andb]. lia.
  - cbn [clock_readings] in Hclock. apply Forall_cons in Hclock as [Ht _].
    rewrite requests_of_cleanup, recent_recent by done. lia.
  - cbn [resets] in Hreset. apply bool_decide_eq_false in Hreset.
    unfold requests_of, reset. cbn [requests with_requests].
    rewrite lookup_delete_ne by done. lia.
  - lia.
Qed.

Lemma exec_all_count identifier now cs rl :
  Forall (fun c => Forall (fun t => t <= now) (clock_readings c)) cs ->
  Forall (fun c => resets identifier c = false) cs ->
  length (recent rl now (requests_of (exec_all cs rl) identifier)) =
  (length (recent rl now (requests_of rl identifier)) +
   count_admitted_within identifier now cs rl)%nat.
Proof.
  revert rl. induction cs as [|c cs IH]; intros rl Hclock Hreset.
  - cbn. lia.
  - apply Forall_cons in Hclock as [Hc Hclock].
    apply Forall_cons in Hreset as [Hr Hreset].
    cbn [exec_all count_admitted_within].
    rewrite <- (recent_window rl (exec c rl)) by apply exec_windowMs.
    rewrite IH by done.
    rewrite (recent_window rl (exec c rl)) by apply exec_windowMs.
    rewrite exec_count by done. lia.
Qed.

Lemma bounded_new lim w : bounded (new (K := K) lim w).
Proof. intros i l Hl. cbn in Hl. by rewrite lookup_empty in Hl. Qed.

Lemma bounded_cleanup t rl : bounded rl -> bounded (cleanup t rl).
Proof.
  intros Hb i l. unfold cleanup. cbn [requests with_requests limit].
  rewrite lookup_omap. destruct (requests rl !! i) as [l0|] eqn:Hi; cbn; [|done].
  pose proof (recent_length rl t l0) as Hlen. specialize (Hb i l0 Hi).
  destruct (recent rl t l0) eqn:Hr; [done|]. intros [= <-]. lia.
Qed.

Lemma bounded_exec c rl : bounded rl -> bounded (exec c rl).
Proof.
  intros Hb. destruct c as [i t sweep|t|i|i t]; cbn [exec].
  - unfold checkLimit. destruct (limit rl <=? _) eqn:Hfull; cbn [snd]; [done|].
    apply Z.leb_gt in Hfull.
    assert (Hb' : bounded (with_requests rl
              (<[i := recent rl t (requests_of rl i) ++ [t]]> (requests rl)))).
    { intros j l. cbn [requests with_requests limit]. rewrite lookup_insert.
      destruct (decide (i = j)) as [->|Hne].
      - intros [= <-]. rewrite length_app. cbn [length]. lia.
      - apply Hb. }
    destruct sweep; [by apply bounded_cleanup | done].
  - by apply bounded_cleanup.
  - intros j l. unfold reset. cbn [requests with_requests limit].
    intros Hl. apply lookup_delete_Some in Hl as [_ Hl]. by eapply Hb.
  - done.
Qed.

Lemma bounded_exec_all cs rl : bounded rl -> bounded (exec_all cs rl).
Proof.
  revert rl. induction cs as [|c cs IH]; intros rl Hb; [done|].
  cbn [exec_all]. by apply IH, bounded_exec.
Qed.

Lemma oldest_elem l t0 : oldest l = Some t0 -> t0 ∈ l.
Proof.
  destruct l as [|t l]; [done|]. cbn [oldest]. intros [= <-].
  induction l as [|x l IH]; cbn [foldr].
  - apply list_elem_of_here.
  - destruct (Z.min_spec x (foldr Z.min t l)) as [[_ ->]|[_ ->]].
    + apply list_elem_of_further, list_elem_of_here.
    + apply elem_of_cons in IH as [->|IH].
      * apply list_elem_of_here.
      * by do 2 apply list_elem_of_further.
Qed.

Lemma recent_drops rl now l t0 :
  t0 ∈ l -> windowMs rl <= now - t0 ->
  (length (recent rl now l) < length l)%nat.
Proof.
  intros Hin Hold. unfold recent. induction l as [|x l IH].
  - by apply not_elem_of_nil in Hin.
  - rewrite filter_cons. apply elem_of_cons in Hin as [<-|Hin].
    + rewrite decide_False by lia.
      pose proof (length_filter (fun time => now - time < windowMs rl) l).
      cbn [length]. lia.
    + specialize (IH Hin). destruct (decide _); cbn [length]; lia.
Qed.

(** C2: on a limiter built with capacity [lim] and window [w], once
    [lim] calls of [checkLimit(identifier)] were admitted at times within
    [w] of the next call (no clock reading of the history being later
    than that call, and the identifier not being reset), the next call
    returns [false] and leaves the state as it is; and once the oldest
    recorded timestamp of the identifier is [w] or more before the call,
    [checkLimit(identifier)] returns [true]. *)
Theorem checkLimit_window (lim w : Z) (cs : list call) (identifier : K)
    (now : Z) (sweep : option Z) :
  (Forall (fun c => Forall (fun t => t <= now) (clock_readings c)) cs ->
   Forall (fun c => resets identifier c = false) cs ->
   lim <= Z.of_nat (count_admitted_within identifier now cs (new lim w)) ->
   checkLimit identifier now sweep (exec_all cs (new lim w)) =
     (false, exec_all cs (new lim w))) /\
  (forall l t0,
     requests (exec_all cs (new lim w)) !! identifier = Some l ->
     oldest l = Some t0 ->
     w <= now - t0 ->
     fst (checkLimit identifier now sweep (exec_all cs (new lim w))) = true).
Proof.
  set (rl := exec_all cs (new lim w)).
  assert (Hlim : limit rl = lim) by apply exec_all_limit.
  assert (Hw : windowMs rl = w) by apply exec_all_windowMs.
  split.
  - intros Hclock Hreset Hcount.
    pose proof (exec_all_count identifier now cs (new lim w) Hclock Hreset) as Hlen.
    fold rl in Hlen.
    rewrite !(recent_window rl (new lim w)) in Hlen by (by rewrite Hw).
    unfold checkLimit. rewrite Hlim.
    destruct (Z.leb_spec lim
      (Z.of_nat (length (recent rl now (requests_of rl identifier))))); [done|lia].
  - intros l t0 Hl Hold Hpast.
    pose proof (bounded_exec_all cs _ (bounded_new lim w) identifier l Hl) as Hb.
    fold rl in Hb.
    assert (Hdrop : (length (recent rl now l) < length l)%nat).
    { apply (recent_drops rl now l t0); [by apply oldest_elem | lia]. }
    unfold checkLimit, requests_of. rewrite Hl. cbn -[recent].
    destruct (Z.leb_spec (limit rl) (Z.of_nat (length (recent rl now l)))); [lia|done].
Qed.

Lemma getRemaining_nonneg rl identifier now : 0 <= getRemaining identifier now rl.
Proof. unfold getRemaining. lia. Qed.

(** C10, as the code has it: [checkLimit] returns [true] exactly when
    [getRemaining], asked just before at the same time, is positive;
    [getRemaining] is never negative; and on a limiter whose window is
    positive an admitted call lowers [getRemaining], asked again at that
    time, by exactly 1. *)
Theorem checkLimit_getRemaining (rl : RateLimiter) (identifier : K) (now : Z)
    (sweep : option Z) :
  (fst (checkLimit identifier now sweep rl) = true <->
   0 < getRemaining identifier now rl) /\
  0 <= getRemaining identifier now rl /\
  (0 < windowMs rl ->
   (forall t, sweep = Some t -> t <= now) ->
   fst (checkLimit identifier now sweep rl) = true ->
   getRemaining identifier now (snd (checkLimit identifier now sweep rl)) =
     getRemaining identifier now rl - 1).
Proof.
  split; [|split; [apply getRemaining_nonneg|]].
  - unfold checkLimit, getRemaining.
    destruct (Z.leb_spec (limit rl)
      (Z.of_nat (length (recent rl now (requests_of rl identifier)))));
      cbn [fst]; split; (done || lia).
  - intros Hw Hsweep Hadm.
    pose proof (exec_count identifier now (CheckLimit identifier now sweep) rl) as Hc.
    cbn [exec admitted_within clock_readings resets] in Hc.
    rewrite Hadm, !bool_decide_true in Hc by (done || lia).
    cbn [andb] in Hc.
    assert (Hlen : length (recent rl now
                     (requests_of (snd (checkLimit identifier now sweep rl)) identifier))
                   = S (length (recent rl now (requests_of rl identifier)))).
    { rewrite Hc; [lia| |done].
      apply Forall_cons. split; [lia|].
      destruct sweep as [t|]; [|done]. apply Forall_cons. split; [by apply Hsweep|done]. }
    assert (Hroom : Z.of_nat (length (recent rl now (requests_of rl identifier)))
                    < limit rl).
    { unfold checkLimit in Hadm.
      destruct (Z.leb_spec (limit rl)
        (Z.of_nat (length (recent rl now (requests_of rl identifier)))));
        [discriminate|done]. }
    change (snd (checkLimit identifier now sweep rl)) with
      (exec (CheckLimit identifier now sweep) rl) in Hlen |- *.
    unfold getRemaining.
    rewrite exec_limit, (recent_window rl) by apply exec_windowMs.
    rewrite Hlen. lia.
Qed.

End Facts.
End RateLimiterFacts.

(** The limiter of the test suite: three requests per second. *)

Module RateLimiterExamples.
Import RateLimiting RateLimiterFacts Scenarios.

Lemma checkLimit_window_witness :
  checkLimit "user1"%string 40 None (exec_all history (new 3 1000)) =
    (false, exec_all history (new 3 1000)) /\
  fst (checkLimit "user1"%string 1000 None (exec_all history (new 3 1000))) = true.
Proof.
  split.
  - apply (proj1 (checkLimit_window 3 1000 history "user1"%string 40 None)).
    + repeat (apply Forall_cons; split); try apply Forall_nil; lia.
    + repeat (apply Forall_cons; split); try apply Forall_nil; reflexivity.
    + vm_compute. discriminate.
  - apply (proj2 (checkLimit_window 3 1000 history "user1"%string 1000 None)
             [0; 10; 30] 0).
    + vm_compute. reflexivity.
    + reflexivity.
    + lia.
Defined.

Lemma checkLimit_getRemaining_witness :
  getRemaining "user1"%string 5 (snd (checkLimit "user1"%string 5 (Some 5) (new 3 1000))) =
  getRemaining "user1"%string 5 (new 3 1000) - 1.
Proof.
  apply (checkLimit_getRemaining (new 3 1000) "user1"%string 5 (Some 5)).
  - cbn. lia.
  - intros t [= <-]. lia.
  - reflexivity.
Defined.

(** C10 as stated fails on a limiter whose window is 0: the timestamp an
    admitted call records is already outside the window, and
    [getRemaining] stays where it was. *)
Lemma getRemaining_zero_window :
  fst (checkLimit "user1"%string 1000 None (new 3 0)) = true /\
  getRemaining "user1"%string 1000 (new 3 0) = 3 /\
  getRemaining "user1"%string 1000
    (snd (checkLimit "user1"%string 1000 None (new 3 0))) = 3.
Proof. repeat split; vm_compute; reflexivity. Qed.

End RateLimiterExamples.

(** ** The dispatchers *)

Module DispatcherFacts.
Import Js Regex Booking DispatchSpec.

Lemma is_text_spec v s : Api.is_text v s = true <-> v = JStr (lit s).
Proof.
  destruct v; cbn [Api.is_text]; try (split; [done|discriminate]).
  rewrite bool_decide_eq_true. split; [by intros -> | by intros [= ->]].
Qed.

Lemma complete_spec args :
  negb (truthy (name args)) || negb (truthy (phone args)) ||
  negb (truthy (address args)) = false <-> complete args.
Proof.
  unfold complete. rewrite !orb_false_iff, !negb_false_iff. tauto.
Qed.

(** What the body of the tool call has checked when it hands a message to
    the transport. *)
Lemma request_cleaning_sent env notifier args email :
  In email (snd (Api.request_cleaning env notifier args)) ->
  complete args /\
  2 <= len (Api.sanitizeString (name args) 100) /\
  (exists pv, Api.validatePhone (phone args) = Return pv /\ Api.valid pv = true) /\
  Api.validateSFAddress (JStr (Api.sanitizeString (address args) 200)) = Return true.
Proof.
  unfold Api.request_cleaning.
  destruct (negb _ || negb _ || negb _) eqn:Hfields; [by intros []|].
  apply complete_spec in Hfields.
  destruct (Z.ltb_spec (len (Api.sanitizeString (name args) 100)) 2);
    [by intros []|].
  destruct (Api.validatePhone _) as [pv|]; [|by intros []].
  destruct (Api.valid pv) eqn:Hvalid; cbn [negb]; [|by intros []].
  destruct (Api.validateSFAddress _) as [[]|]; cbn [negb]; try by intros [].
  intros _. split; [done|]. split; [done|]. split; [by exists pv | done].
Qed.

Lemma handler_sent env notifier now requestStore req email :
  In email (Api.sent (Api.handler env notifier now requestStore req)) ->
  fst (Api.checkRateLimit (Api.clientIp req) now requestStore) = true /\
  exists args,
    (books req args /\ Api.body_json_length req <= 10000) /\
    In email (snd (Api.request_cleaning env notifier args)).
Proof.
  unfold Api.handler, books.
  destruct (bool_decide (Api.http_method req = "OPTIONS"%string)); [by intros []|].
  destruct (bool_decide (Api.http_method req = "POST"%string)) eqn:Hpost;
    cbn [negb]; [|by intros []].
  apply bool_decide_eq_true in Hpost.
  destruct (Api.checkRateLimit _ _ _) as [[] st]; cbn [negb fst]; [|by intros []].
  destruct (Api.body req) as [b|] eqn:Hbody; [|by intros []].
  destruct (Z.gtb_spec (Api.body_json_length req) 10000); [by intros []|].
  destruct (Api.is_text (Api.method b) "initialize"); [by intros []|].
  destruct (Api.is_text (Api.method b) "tools/list"); [by intros []|].
  destruct (Api.params b) as [p|] eqn:Hparams; [|by intros []].
  destruct (Api.is_text (Api.method b) "tools/call") eqn:Hm; [|by intros []].
  destruct (Api.is_text (Api.tool p) "request_cleaning") eqn:Ht; [|by intros []].
  cbn [andb]. apply is_text_spec in Hm, Ht.
  destruct (Api.arguments p) as [args|] eqn:Hargs.
  - cbn [arguments_or_empty].
    destruct (Api.request_cleaning env notifier args) as [r mails] eqn:Hrc.
    cbn [Api.sent]. intros Hin. split; [done|].
    exists args. split; [|by rewrite Hrc].
    split; [|lia]. split; [done|]. exists b, p. done.
  - cbn [arguments_or_empty]. by intros [].
Qed.

Lemma call_tool_sent env notifier request email :
  In email (Server.sent (Server.call_tool env notifier request)) ->
  exists args,
    Server.tool request = JStr (lit "request_cleaning") /\
    Server.arguments request = Some args /\
    complete args /\
    2 <= len (Server.sanitizeString (name args) 100) /\
    Server.valid (Server.validatePhone (phone args)) = true /\
    10 <= len (Server.sanitizeString (address args) 200) /\
    Server.validateSFAddress (JStr (Server.sanitizeString (address args) 200)) = true.
Proof.
  unfold Server.call_tool.
  destruct (Api.is_text _ _) eqn:Ht; [|by intros []].
  apply is_text_spec in Ht.
  destruct (Server.arguments request) as [args|] eqn:Hargs;
    cbn [arguments_or_empty]; [|by intros []].
  destruct (negb _ || negb _ || negb _) eqn:Hfields; [by intros []|].
  apply complete_spec in Hfields.
  destruct (Z.ltb_spec (len (Server.sanitizeString (name args) 100)) 2);
    [by intros []|].
  destruct (Server.valid _) eqn:Hvalid; cbn [negb]; [|by intros []].
  destruct (Z.ltb_spec (len (Server.sanitizeString (address args) 200)) 10);
    [by intros []|].
  destruct (Server.validateSFAddress _) eqn:Hsf; cbn [negb]; [|by intros []].
  intros _. by exists args.
Qed.

(** The checks the dispatchers do make before a message reaches the mail
    transport: the request carries all three fields, the sanitized name
    has 2 characters or more, the dispatcher's own [validatePhone]
    answered valid and its own [validateSFAddress] answered true on the
    sanitized address; in the HTTP handler, moreover, the rate limiter
    admitted the request and the body is within 10000 characters; the
    stdio server asks for a sanitized address of 10 characters or more.
    The validators of lib/validators.js are not among them. *)
Lemma notifier_gates :
  (forall env notifier now requestStore req email,
     In email (Api.sent (Api.handler env notifier now requestStore req)) ->
     fst (Api.checkRateLimit (Api.clientIp req) now requestStore) = true /\
     Api.body_json_length req <= 10000 /\
     exists args,
       books req args /\ complete args /\
       2 <= len (Api.sanitizeString (name args) 100) /\
       (exists pv, Api.validatePhone (phone args) = Return pv /\
                   Api.valid pv = true) /\
       Api.validateSFAddress (JStr (Api.sanitizeString (address args) 200))
         = Return true) /\
  (forall env notifier request email,
     In email (Server.sent (Server.call_tool env notifier request)) ->
     exists args,
       Server.arguments request = Some args /\ complete args /\
       2 <= len (Server.sanitizeString (name args) 100) /\
       Server.valid (Server.validatePhone (phone args)) = true /\
       10 <= len (Server.sanitizeString (address args) 200) /\
       Server.validateSFAddress (JStr (Server.sanitizeString (address args) 200))
         = true).
Proof.
  split.
  - intros env notifier now requestStore req email Hin.
    apply handler_sent in Hin as [Hrate (args & [Hreq Hsize] & Hin)].
    apply request_cleaning_sent in Hin as (Hfields & Hname & Hphone & Hsf).
    split; [done|]. split; [done|]. by exists args.
  - intros env notifier request email Hin.
    apply call_tool_sent in Hin
      as (args & _ & Hargs & Hfields & Hname & Hphone & Hfloor & Hsf).
    by exists args.
Qed.

End DispatcherFacts.

(** ** Out-of-region requests *)

Module DeclineFacts.
Import Js Regex Booking DispatchSpec DispatcherFacts.

Lemma request_cleaning_declines env notifier args pv :
  complete args ->
  2 <= len (Api.sanitizeString (name args) 100) ->
  Api.validatePhone (phone args) = Return pv ->
  Api.valid pv = true ->
  Api.validateSFAddress (JStr (Api.sanitizeString (address args) 200)) = Return false ->
  Api.request_cleaning env notifier args =
    (Some {| Api.status := 200; Api.payload := Api.ContentBody decline |}, []).
Proof.
  intros Hfields Hname Hphone Hvalid Hsf. unfold Api.request_cleaning.
  apply complete_spec in Hfields. rewrite Hfields.
  destruct (Z.ltb_spec (len (Api.sanitizeString (name args) 100)) 2); [lia|].
  rewrite Hphone, Hvalid, Hsf. reflexivity.
Qed.

Lemma handler_books env notifier now requestStore req args :
  books req args /\ Api.body_json_length req <= 10000 ->
  fst (Api.checkRateLimit (Api.clientIp req) now requestStore) = true ->
  Api.response (Api.handler env notifier now requestStore req) =
    fst (Api.request_cleaning env notifier args) /\
  Api.sent (Api.handler env notifier now requestStore req) =
    snd (Api.request_cleaning env notifier args).
Proof.
  intros [(Hpost & b & p & Hbody & Hm & Hparams & Ht & Hargs) Hsize] Hrate.
  unfold Api.handler. rewrite Hpost.
  rewrite bool_decide_false by discriminate.
  rewrite bool_decide_true by reflexivity. cbn [negb].
  destruct (Api.checkRateLimit _ _ _) as [adm st]. cbn [fst] in Hrate. subst adm.
  cbn [negb]. rewrite Hbody.
  destruct (Z.gtb_spec (Api.body_json_length req) 10000); [lia|].
  rewrite Hm, Hparams, Ht, Hargs.
  assert (Hinit : Api.is_text (JStr (lit "tools/call")) "initialize" = false)
    by reflexivity.
  assert (Hlist : Api.is_text (JStr (lit "tools/call")) "tools/list" = false)
    by reflexivity.
  rewrite Hinit, Hlist.
  rewrite !(proj2 (is_text_spec _ _) eq_refl). cbn [andb arguments_or_empty].
  by destruct (Api.request_cleaning env notifier args).
Qed.

(** C7, as the code has it: a request that carries all three fields and
    passes the rate limit, the name check and the phone check, and whose
    sanitized address the dispatcher classifies out of region, is
    answered with the fixed decline message and nothing is handed to the
    mail transport.  In the HTTP handler this is a POST whose body is
    within 10000 characters: a longer one is answered 413 before the
    call is looked at, and nothing is sent.  In the stdio server it holds
    once the sanitized address has 10 characters or more, the floor it
    checks first: a shorter one is answered with the message of the
    floor, whatever its region, and nothing is sent. *)
Theorem out_of_region_declined :
  (forall env notifier now requestStore req args pv,
     books req args ->
     Api.body_json_length req <= 10000 ->
     fst (Api.checkRateLimit (Api.clientIp req) now requestStore) = true ->
     complete args ->
     2 <= len (Api.sanitizeString (name args) 100) ->
     Api.validatePhone (phone args) = Return pv ->
     Api.valid pv = true ->
     Api.validateSFAddress (JStr (Api.sanitizeString (address args) 200))
       = Return false ->
     Api.response (Api.handler env notifier now requestStore req) =
       Some {| Api.status := 200;
               Api.payload := Api.ContentBody
                 "Sorry, we only serve San Francisco currently. We're expanding - stay tuned!" |} /\
     Api.sent (Api.handler env notifier now requestStore req) = []) /\
  (forall env notifier now requestStore req b,
     Api.http_method req = "POST"%string ->
     Api.body req = Some b ->
     10000 < Api.body_json_length req ->
     fst (Api.checkRateLimit (Api.clientIp req) now requestStore) = true ->
     Api.response (Api.handler env notifier now requestStore req) =
       Some {| Api.status := 413;
               Api.payload := Api.ErrorBody "Request too large" |} /\
     Api.sent (Api.handler env notifier now requestStore req) = []) /\
  (forall env notifier request args,
     Server.tool request = JStr (lit "request_cleaning") ->
     Server.arguments request = Some args ->
     complete args ->
     2 <= len (Server.sanitizeString (name args) 100) ->
     Server.valid (Server.validatePhone (phone args)) = true ->
     10 <= len (Server.sanitizeString (address args) 200) ->
     Server.validateSFAddress (JStr (Server.sanitizeString (address args) 200))
       = false ->
     Server.call_tool env notifier request =
       {| Server.text :=
            "Sorry, we only serve San Francisco currently. We're expanding - stay tuned!";
          Server.sent := [] |}) /\
  (forall env notifier request args,
     Server.tool request = JStr (lit "request_cleaning") ->
     Server.arguments request = Some args ->
     complete args ->
     2 <= len (Server.sanitizeString (name args) 100) ->
     Server.valid (Server.validatePhone (phone args)) = true ->
     len (Server.sanitizeString (address args) 200) < 10 ->
     Server.call_tool env notifier request =
       {| Server.text := "Error: Please provide a complete address.";
          Server.sent := [] |}).
Proof.
  split; [|split; [|split]].
  - intros env notifier now requestStore req args pv
      Hreq Hsize Hrate Hfields Hname Hphone Hvalid Hsf.
    destruct (handler_books env notifier now requestStore req args
                (conj Hreq Hsize) Hrate) as [-> ->].
    by rewrite (request_cleaning_declines env notifier args pv).
  - intros env notifier now requestStore req b Hpost Hbody Hsize Hrate.
    unfold Api.handler. rewrite Hpost.
    rewrite bool_decide_false by discriminate.
    rewrite bool_decide_true by reflexivity. cbn [negb].
    destruct (Api.checkRateLimit _ _ _) as [adm st]. cbn [fst] in Hrate. subst adm.
    cbn [negb]. rewrite Hbody.
    destruct (Z.gtb_spec (Api.body_json_length req) 10000); [done|lia].
  - intros env notifier request args Htool Hargs Hfields Hname Hvalid Hfloor Hsf.
    unfold Server.call_tool.
    rewrite Htool, (proj2 (is_text_spec _ _) eq_refl), Hargs.
    cbn [arguments_or_empty].
    apply complete_spec in Hfields. rewrite Hfields.
    destruct (Z.ltb_spec (len (Server.sanitizeString (name args) 100)) 2); [lia|].
    rewrite Hvalid. cbn [negb].
    destruct (Z.ltb_spec (len (Server.sanitizeString (address args) 200)) 10); [lia|].
    rewrite Hsf. reflexivity.
  - intros env notifier request args Htool Hargs Hfields Hname Hvalid Hfloor.
    unfold Server.call_tool.
    rewrite Htool, (proj2 (is_text_spec _ _) eq_refl), Hargs.
    cbn [arguments_or_empty].
    apply complete_spec in Hfields. rewrite Hfields.
    destruct (Z.ltb_spec (len (Server.sanitizeString (name args) 100)) 2); [lia|].
    rewrite Hvalid. cbn [negb].
    destruct (Z.ltb_spec (len (Server.sanitizeString (address args) 200)) 10); [|lia].
    reflexivity.
Qed.

End DeclineFacts.

(** ** The dispatchers on concrete requests *)

Module DispatcherExamples.
Import Js Regex Booking DispatchSpec Scenarios DispatcherFacts DeclineFacts.

Lemma post_books args : books (post args) args.
Proof. split; [reflexivity|]. do 2 eexists. repeat split; reflexivity. Qed.

Lemma notifier_gates_witness :
  fst (Api.checkRateLimit (Api.clientIp (post john_doe)) 0 ∅) = true /\
  Api.body_json_length (post john_doe) <= 10000 /\
  exists args,
    books (post john_doe) args /\ complete args /\
    2 <= len (Api.sanitizeString (name args) 100) /\
    (exists pv, Api.validatePhone (phone args) = Return pv /\
                Api.valid pv = true) /\
    Api.validateSFAddress (JStr (Api.sanitizeString (address args) 200))
      = Return true.
Proof.
  apply (proj1 notifier_gates env delivers 0 ∅ (post john_doe)
           {| from := lit "test@example.com";
              to := [lit "partner@example.com"];
              subject := "Cleaning Request - SF";
              customer_name := lit "John Doe";
              customer_phone := Some (lit "415-555-1234");
              customer_address := lit "123 Market St, San Francisco, CA 94105" |}).
  vm_compute. by left.
Defined.

(** C1 on requests the validators of lib/validators.js refuse.  The
    dispatchers never call [validateName] and [validatePhone]: a booking
    in the name [John123] with the phone number [0155551234], both
    refused by the library, is handed to the mail transport by the HTTP
    handler and by the stdio server; and the booking of the test
    [sanitizes XSS attempts], whose name the library refuses as sent and
    as sanitized, is mailed by the HTTP handler and answered 200 with the
    confirmation, where the test expects 400. *)
Theorem invalid_fields_reach_notifier :
  Validators.validateName (JStr (lit "John123")) =
    Validators.name_invalid "Name contains invalid characters" /\
  Validators.validatePhone (JStr (lit "0155551234")) = Validators.phone_invalid /\
  Api.sent (Api.handler env delivers 0 ∅ (post digits_in_name)) =
    [{| from := lit "test@example.com";
        to := [lit "partner@example.com"];
        subject := "Cleaning Request - SF";
        customer_name := lit "John123";
        customer_phone := Some (lit "015-555-1234");
        customer_address := lit "123 Market St, San Francisco, CA 94105" |}] /\
  Server.sent (Server.call_tool server_env delivers (call digits_in_name)) =
    [{| from := lit "test@example.com";
        to := [lit "partner@example.com"];
        subject := "Cleaning Request - SF";
        customer_name := lit "John123";
        customer_phone := Some (lit "015-555-1234");
        customer_address := lit "123 Market St, San Francisco, CA 94105" |}] /\
  Validators.name_valid (Validators.validateName (JStr xss_name)) = false /\
  Validators.name_valid
    (Validators.validateName (JStr (Api.sanitizeString (JStr xss_name) 100))) = false /\
  Api.response (Api.handler env delivers 0 ∅ (post xss_booking)) =
    Some {| Api.status := 200;
            Api.payload := Api.ContentBody
              "Successfully booked the maid. Will get confirmation shortly." |} /\
  Api.sent (Api.handler env delivers 0 ∅ (post xss_booking)) =
    [{| from := lit "test@example.com";
        to := [lit "partner@example.com"];
        subject := "Cleaning Request - SF";
        customer_name := lit "alert(XSS)";
        customer_phone := Some (lit "415-555-1234");
        customer_address := lit "123 Market St, SF" |}].
Proof. repeat split; vm_compute; reflexivity. Qed.

(** The stdio server has no rate limiter: eleven requests made at one
    instant are all forwarded, one more than [RATE_LIMIT]. *)
Lemma stdio_server_has_no_limiter :
  Z.of_nat (length (flat_map
              (fun request => Server.sent (Server.call_tool server_env delivers request))
              (repeat (call john_doe) 11))) > Api.RATE_LIMIT.
Proof. vm_compute. reflexivity. Qed.

Lemma out_of_region_declined_witness :
  Api.response (Api.handler env delivers 0 ∅ (post jane_doe)) =
    Some {| Api.status := 200; Api.payload := Api.ContentBody decline |} /\
  Api.sent (Api.handler env delivers 0 ∅ (post jane_doe)) = [] /\
  Api.response (Api.handler env delivers 0 ∅ (oversized (post jane_doe))) =
    Some {| Api.status := 413; Api.payload := Api.ErrorBody "Request too large" |} /\
  Api.sent (Api.handler env delivers 0 ∅ (oversized (post jane_doe))) = [] /\
  Server.call_tool server_env delivers (call jane_doe) =
    {| Server.text := decline; Server.sent := [] |} /\
  Server.call_tool server_env delivers (call short_address) =
    {| Server.text := "Error: Please provide a complete address.";
       Server.sent := [] |}.
Proof.
  assert (Hfields : complete jane_doe) by (repeat split; reflexivity).
  assert (Hshort : complete short_address) by (repeat split; reflexivity).
  destruct out_of_region_declined as (Hhttp & Hlarge & Hstdio & Hfloor).
  specialize (Hhttp env delivers 0 ∅ (post jane_doe) jane_doe
                {| Api.valid := true; Api.cleaned := Some (lit "510-555-1234") |}
                (post_books jane_doe)).
  specialize (Hlarge env delivers 0 ∅ (oversized (post jane_doe))).
  specialize (Hstdio server_env delivers (call jane_doe) jane_doe
                eq_refl eq_refl Hfields).
  specialize (Hfloor server_env delivers (call short_address) short_address
                eq_refl eq_refl Hshort).
  split; [|split; [|split; [|split; [|split]]]].
  - apply Hhttp; [vm_compute; discriminate | reflexivity | done |
                  vm_compute; discriminate | reflexivity..].
  - apply Hhttp; [vm_compute; discriminate | reflexivity | done |
                  vm_compute; discriminate | reflexivity..].
  - eapply Hlarge; [reflexivity | reflexivity | vm_compute; reflexivity | reflexivity].
  - eapply Hlarge; [reflexivity | reflexivity | vm_compute; reflexivity | reflexivity].
  - apply Hstdio; [vm_compute; discriminate | reflexivity |
                   vm_compute; discriminate | reflexivity].
  - apply Hfloor; [vm_compute; discriminate | reflexivity | vm_compute; reflexivity].
Defined.

(** C7 as stated fails in the stdio server: a short out-of-region address
    passes the name and phone checks and is answered with the message of
    the length floor, not with the decline message. *)
Lemma short_address_not_declined :
  Server.text (Server.call_tool server_env delivers (call short_address)) =
    "Error: Please provide a complete address."%string /\
  Server.validateSFAddress (JStr (Server.sanitizeString (JStr (lit "Oakland")) 200))
    = false /\
  (len (Server.sanitizeString (JStr (lit "John Doe")) 100) <? 2) = false /\
  Server.valid (Server.validatePhone (JStr (lit "4155551234"))) = true.
Proof. repeat split; vm_compute; reflexivity. Qed.

End DispatcherExamples.

(** ** The region classifier *)

Module ClassifierFacts.
Import Js Regex Booking Scenarios.

(** The three addresses the specification names, in the three copies of
    the classifier. *)
Lemma validateSFAddress_examples :
  Validators.validateSFAddress (JStr (lit "123 Market St, 94105")) = true /\
  Validators.validateSFAddress (JStr (lit "San Francisco")) = true /\
  Validators.validateSFAddress (JStr (lit "123 Broadway, Oakland, CA 94607")) = false /\
  Api.validateSFAddress (JStr (lit "123 Market St, 94105")) = Return true /\
  Api.validateSFAddress (JStr (lit "San Francisco")) = Return true /\
  Api.validateSFAddress (JStr (lit "123 Broadway, Oakland, CA 94607")) = Return false /\
  Server.validateSFAddress (JStr (lit "123 Market St, 94105")) = true /\
  Server.validateSFAddress (JStr (lit "San Francisco")) = true /\
  Server.validateSFAddress (JStr (lit "123 Broadway, Oakland, CA 94607")) = false.
Proof. repeat split; vm_compute; reflexivity. Qed.

(** C6 on the address of the test [avoids false positives]: the library
    classifier, which looks for whole words, answers false; the copies in
    the two dispatchers look for substrings, find [sf] inside [Satisfy]
    and answer true, and the HTTP handler hands the booking to the mail
    transport. *)
Theorem indicator_inside_a_word :
  Validators.validateSFAddress (JStr satisfy) = false /\
  Api.validateSFAddress (JStr satisfy) = Return true /\
  Server.validateSFAddress (JStr satisfy) = true /\
  length (Api.sent (Api.handler env delivers 0 ∅
            (post (booking (JStr (lit "John Doe")) (JStr (lit "4155551234"))
                           (JStr satisfy))))) = 1%nat.
Proof. repeat split; vm_compute; reflexivity. Qed.

(** The pattern built for the indicator [s.f.] keeps its second dot as a
    wildcard and ends on a word boundary: the abbreviation itself is not
    matched, while [s.f] followed by a letter is. *)
Lemma abbreviation_pattern :
  Validators.validateSFAddress (JStr (lit "123 Main, S.F.")) = false /\
  Validators.validateSFAddress (JStr (lit "123 Main, S.Fa")) = true.
Proof. split; vm_compute; reflexivity. Qed.

End ClassifierFacts.

(** ** Values that are not strings *)

Module TotalityFacts.
Import Js Regex Booking Scenarios.

(** The validators of lib/validators.js and of index.js test the type of
    their argument first. *)
Lemma library_validators_total (v : JsValue) (maxLength : Z) :
  is_string v = false ->
  Validators.sanitizeString v maxLength = [] /\
  Validators.validatePhone v = Validators.phone_invalid /\
  Validators.validateName v = Validators.name_invalid "Name must be a string" /\
  Validators.validateSFAddress v = false /\
  Validators.validateEmail v = false /\
  Server.sanitizeString v maxLength = [] /\
  Server.validatePhone v = {| Server.valid := false; Server.cleaned := None |} /\
  Server.validateSFAddress v = false /\
  Api.sanitizeString v maxLength = [].
Proof. destruct v; [done..|discriminate|done]. Qed.

(** C9 on a phone number sent as a JSON number: [validatePhone] of
    api/mcp.js has no type test and throws, where the copies in
    lib/validators.js and index.js return their invalid result; the
    handler answers the request with its 500 response.  The region check
    of api/mcp.js has no type test either. *)
Theorem validatePhone_throws_on_number :
  Api.validatePhone (JNum 4155551234) = Throw TypeError /\
  Api.validateSFAddress (JNum 94105) = Throw TypeError /\
  Validators.validatePhone (JNum 4155551234) = Validators.phone_invalid /\
  Server.validatePhone (JNum 4155551234) =
    {| Server.valid := false; Server.cleaned := None |} /\
  Api.response (Api.handler env delivers 0 ∅ (post numeric_phone)) =
    Some {| Api.status := 500;
            Api.payload :=
              Api.ErrorBody "Service temporarily unavailable. Please try again." |}.
Proof. repeat split; vm_compute; reflexivity. Qed.

End TotalityFacts.

(** * Further properties of the code *)

(** ** More on the rate limiter *)

Module RateLimiterMore.
Import RateLimiting RateLimiterFacts.

Section More.
Context `{Countable K}.
Implicit Types (rl : RateLimiter (K := K)) (c : call (K := K)) (l : list Z).

Lemma requests_of_new lim w (i : K) : requests_of (new lim w) i = [].
Proof. unfold requests_of. cbn. by rewrite lookup_empty. Qed.

Lemma requests_of_bounded rl i :
  bounded rl -> Z.of_nat (length (requests_of rl i)) <= Z.max 0 (limit rl).
Proof.
  intros Hb. unfold requests_of.
  destruct (requests rl !! i) as [l|] eqn:Hi; cbn -[Z.max].
  - specialize (Hb i l Hi). lia.
  - lia.
Qed.

(** From any state in which no array is longer than the capacity, the
    timestamps an identifier has within the window and the calls admitted
    for it afterwards fit in the capacity together. *)
Lemma admitted_fit rl (cs : list call) (identifier : K) (now : Z) :
  bounded rl ->
  Forall (fun c => Forall (fun t => t <= now) (clock_readings c)) cs ->
  Forall (fun c => resets identifier c = false) cs ->
  Z.of_nat (length (recent rl now (requests_of rl identifier)) +
            count_admitted_within identifier now cs rl) <= Z.max 0 (limit rl).
Proof.
  intros Hrl Hclock Hreset.
  rewrite <- (exec_all_count identifier now cs rl Hclock Hreset).
  pose proof (requests_of_bounded (exec_all cs rl) identifier
                (bounded_exec_all cs _ Hrl)) as Hb.
  rewrite exec_all_limit in Hb.
  pose proof (recent_length rl now (requests_of (exec_all cs rl) identifier)) as Hr.
  lia.
Qed.

(** X1: within any window the limiter admits an identifier at most
    [limit] times.  On a limiter built with capacity [lim] and window
    [w], over any history whose clock readings are not later than [now]
    and in which the identifier is not reset, the calls
    [checkLimit(identifier)] admitted at times within [w] of [now] number
    at most [lim] (none when [lim] is negative). *)
Theorem admissions_bounded (lim w : Z) (cs : list call) (identifier : K) (now : Z) :
  Forall (fun c => Forall (fun t => t <= now) (clock_readings c)) cs ->
  Forall (fun c => resets identifier c = false) cs ->
  Z.of_nat (count_admitted_within identifier now cs (new lim w)) <= Z.max 0 lim.
Proof.
  intros Hclock Hreset.
  pose proof (admitted_fit (new lim w) cs identifier now (bounded_new lim w)
                Hclock Hreset) as Hfit.
  rewrite requests_of_new in Hfit.
  cbn [recent filter list_filter length limit new Nat.add] in Hfit.
  exact Hfit.
Qed.

(** X2: [cleanup] is invisible to later calls.  For every state, once
    [cleanup] ran at time [t], [getRemaining] and the answer of
    [checkLimit] at any time [now] not before [t] are what they would
    have been without it, for every identifier. *)
Theorem cleanup_unobservable rl (t now : Z) (identifier : K) (sweep : option Z) :
  t <= now ->
  getRemaining identifier now (cleanup t rl) = getRemaining identifier now rl /\
  fst (checkLimit identifier now sweep (cleanup t rl)) =
    fst (checkLimit identifier now sweep rl).
Proof.
  intros Ht.
  assert (Hsame : recent (cleanup t rl) now (requests_of (cleanup t rl) identifier)
                  = recent rl now (requests_of rl identifier)).
  { rewrite (recent_window rl (cleanup t rl)) by done.
    rewrite requests_of_cleanup. by apply recent_recent. }
  split.
  - unfold getRemaining. by rewrite Hsame.
  - unfold checkLimit. rewrite Hsame.
    change (limit (cleanup t rl)) with (limit rl).
    by destruct (limit rl <=? _).
Qed.

(** X3: what [cleanup] leaves behind.  After [cleanup] at time [t] every
    array still in the map is non-empty and holds only timestamps within
    the window of [t], and it is the array the identifier had before,
    filtered; no identifier is added. *)
Theorem cleanup_leaves_recent rl (t : Z) (identifier : K) (l : list Z) :
  requests (cleanup t rl) !! identifier = Some l ->
  l <> [] /\
  Forall (fun time => t - time < windowMs rl) l /\
  exists l0, requests rl !! identifier = Some l0 /\ l = recent rl t l0.
Proof.
  unfold cleanup. cbn [requests with_requests]. rewrite lookup_omap.
  destruct (requests rl !! identifier) as [l0|]; cbn -[recent]; [|done].
  destruct (recent rl t l0) as [|x r] eqn:Hr; [done|].
  intros [= <-]. split; [done|]. split.
  - rewrite <- Hr. unfold recent. apply List.Forall_forall. intros y Hy.
    apply list_elem_of_In, list_elem_of_filter in Hy. tauto.
  - by exists l0.
Qed.

(** X4: [reset] gives an identifier its whole capacity back and touches
    no other identifier.  After [reset(identifier)], [getRemaining] of
    the identifier is the capacity (0 for a negative one) at any time,
    its next [checkLimit] is admitted exactly when the capacity is
    positive, and the arrays of the other identifiers are unchanged. *)
Theorem reset_restores rl (identifier : K) (now : Z) (sweep : option Z) :
  getRemaining identifier now (reset identifier rl) = Z.max 0 (limit rl) /\
  (fst (checkLimit identifier now sweep (reset identifier rl)) = true <->
   0 < limit rl) /\
  (forall other, other <> identifier ->
     requests (reset identifier rl) !! other = requests rl !! other).
Proof.
  assert (Hgone : requests_of (reset identifier rl) identifier = []).
  { unfold requests_of, reset. cbn [requests with_requests].
    by rewrite lookup_delete_eq. }
  split; [|split].
  - unfold getRemaining. rewrite Hgone. cbn. lia.
  - unfold checkLimit. rewrite Hgone.
    change (limit (reset identifier rl)) with (limit rl).
    unfold recent. rewrite filter_nil. cbn [length].
    destruct (Z.leb_spec (limit rl) (Z.of_nat 0)); cbn [fst]; split; (done || lia).
  - intros other Hne. unfold reset. cbn [requests with_requests].
    by rewrite lookup_delete_ne.
Qed.

(** X5: identifiers are counted separately.  A call of [checkLimit] for
    one identifier, its cleanup sweep included, changes neither
    [getRemaining] nor the next answer of [checkLimit] for any other
    identifier, asked at a time not before the sweep. *)
Theorem checkLimit_isolated rl (identifier other : K) (t now : Z)
    (sweep sweep' : option Z) :
  other <> identifier ->
  (forall t0, sweep = Some t0 -> t0 <= now) ->
  getRemaining other now (snd (checkLimit identifier t sweep rl)) =
    getRemaining other now rl /\
  fst (checkLimit other now sweep' (snd (checkLimit identifier t sweep rl))) =
    fst (checkLimit other now sweep' rl).
Proof.
  intros Hne Hsweep.
  set (rl2 := snd (checkLimit identifier t sweep rl)).
  assert (Hlim : limit rl2 = limit rl)
    by apply (exec_limit (CheckLimit identifier t sweep)).
  assert (Hwin : windowMs rl2 = windowMs rl)
    by apply (exec_windowMs (CheckLimit identifier t sweep)).
  assert (Hsame : recent rl2 now (requests_of rl2 other)
                  = recent rl now (requests_of rl other)).
  { rewrite (recent_window rl rl2) by done. unfold rl2, checkLimit.
    destruct (limit rl <=? _); cbn [snd]; [done|].
    set (rl' := with_requests rl _).
    assert (Hins : requests_of rl' other = requests_of rl other).
    { unfold rl'. rewrite requests_of_insert. by rewrite decide_False. }
    destruct sweep as [t0|]; [|by rewrite Hins].
    rewrite requests_of_cleanup, Hins.
    change (recent rl' t0) with (recent rl t0).
    apply recent_recent. by apply Hsweep. }
  split.
  - unfold getRemaining. by rewrite Hsame, Hlim.
  - unfold checkLimit. rewrite Hsame, Hlim. by destruct (limit rl <=? _).
Qed.

End More.
End RateLimiterMore.

(** ** The HTTP handler and its rate limit *)

Module TrafficFacts.
Import Js Regex Booking RateLimiting RateLimiterFacts RateLimiterMore Traffic.
Import DispatchSpec DispatcherFacts.

Lemma checkRateLimit_checkLimit (ip : string) (now : Z)
    (requestStore : gmap string (list Z)) :
  Api.checkRateLimit ip now requestStore =
  (fst (checkLimit ip now None (limiter_of requestStore)),
   requests (snd (checkLimit ip now None (limiter_of requestStore)))).
Proof.
  unfold Api.checkRateLimit, checkLimit, limiter_of, requests_of, recent.
  cbn [limit windowMs requests].
  by destruct (Api.RATE_LIMIT <=? _).
Qed.

Lemma handler_store env notifier now requestStore req :
  Api.store (Api.handler env notifier now requestStore req) =
  if rate_checked req
  then snd (Api.checkRateLimit (Api.clientIp req) now requestStore)
  else requestStore.
Proof.
  unfold Api.handler, rate_checked.
  destruct (bool_decide (Api.http_method req = "OPTIONS"%string)); [done|].
  destruct (bool_decide (Api.http_method req = "POST"%string)); cbn [negb andb];
    [|done].
  destruct (Api.checkRateLimit _ _ _) as [[] st]; cbn [negb snd]; [|done].
  destruct (Api.body req) as [b|]; [|done].
  destruct (Api.body_json_length req >? 10000); [done|].
  destruct (Api.is_text (Api.method b) "initialize"); [done|].
  destruct (Api.is_text (Api.method b) "tools/list"); [done|].
  destruct (Api.params b) as [p|]; [|done].
  destruct (_ && _); [|done].
  by destruct (Api.request_cleaning _ _ _).
Qed.

Lemma request_cleaning_one env notifier args :
  (length (snd (Api.request_cleaning env notifier args)) <= 1)%nat.
Proof.
  unfold Api.request_cleaning.
  repeat (match goal with
          | |- context [if ?b then _ else _] => destruct b
          | |- context [match ?x with Return _ => _ | Throw _ => _ end] => destruct x
          end; cbn [snd length]; try lia).
Qed.

Lemma handler_one env notifier now requestStore req :
  (length (Api.sent (Api.handler env notifier now requestStore req)) <= 1)%nat.
Proof.
  destruct (Api.sent (Api.handler env notifier now requestStore req))
    as [|email rest] eqn:Hsent; [cbn; lia|].
  assert (Hin : In email (Api.sent (Api.handler env notifier now requestStore req)))
    by (rewrite Hsent; by left).
  apply handler_sent in Hin as [Hrate (args & Hreq & _)].
  destruct (DeclineFacts.handler_books env notifier now requestStore req args Hreq Hrate)
    as [_ Heq].
  rewrite <- Hsent, Heq. apply request_cleaning_one.
Qed.

(** X6: every request the handler does not answer 200 (OPTIONS) or 405
    is counted against its client before its body is looked at.  The
    store the handler leaves is the one [checkRateLimit] leaves for the
    client, whatever the body says; an OPTIONS or non-POST request leaves
    the store alone; and a request of a client over the limit is answered
    429 and nothing is sent. *)
Theorem handler_counts_request env notifier now requestStore req :
  Api.store (Api.handler env notifier now requestStore req) =
    (if rate_checked req
     then snd (Api.checkRateLimit (Api.clientIp req) now requestStore)
     else requestStore) /\
  (rate_checked req = true ->
   fst (Api.checkRateLimit (Api.clientIp req) now requestStore) = false ->
   Api.handler env notifier now requestStore req =
     {| Api.response :=
          Some {| Api.status := 429;
                  Api.payload := Api.ErrorBody "Too many requests. Please try again later." |};
        Api.sent := [];
        Api.store := requestStore |}).
Proof.
  split; [apply handler_store|].
  unfold rate_checked, Api.handler. intros Hchecked Hdenied.
  apply andb_true_iff in Hchecked as [Hopt Hpost].
  apply negb_true_iff in Hopt. rewrite Hopt, Hpost. cbn [negb].
  unfold Api.checkRateLimit in Hdenied |- *.
  destruct (Api.RATE_LIMIT <=? _); [reflexivity|discriminate].
Qed.

(** X7: one request, at most one message.  The handler hands at most one
    message to the mail transport per request, only when the key of the
    mail service is configured, and then answers 200 with the
    confirmation, 500, or (the transport never settling) not at all. *)
Theorem handler_sends_once env notifier now requestStore req :
  (length (Api.sent (Api.handler env notifier now requestStore req)) <= 1)%nat /\
  (forall email,
     In email (Api.sent (Api.handler env notifier now requestStore req)) ->
     Api.initResend env = true /\
     Api.response (Api.handler env notifier now requestStore req) =
       match notifier email with
       | Delivered =>
           Some {| Api.status := 200;
                   Api.payload := Api.ContentBody
                     "Successfully booked the maid. Will get confirmation shortly." |}
       | Refused =>
           Some {| Api.status := 500;
                   Api.payload := Api.ErrorBody
                     "Failed to send booking request. Please try again." |}
       | Rejected =>
           Some {| Api.status := 500;
                   Api.payload := Api.ErrorBody
                     "Service temporarily unavailable. Please try again." |}
       | Pending => None
       end).
Proof.
  split; [apply handler_one|].
  intros email Hin.
  apply handler_sent in Hin as [Hrate (args & Hreq & Hin)].
  destruct (DeclineFacts.handler_books env notifier now requestStore req args Hreq Hrate)
    as [-> _].
  revert Hin. unfold Api.request_cleaning.
  destruct (negb _ || negb _ || negb _); [by intros []|].
  destruct (len _ <? 2); [by intros []|].
  destruct (Api.validatePhone _) as [pv|]; [|by intros []].
  destruct (negb (Api.valid pv)); [by intros []|].
  destruct (Api.validateSFAddress _) as [[]|]; cbn [negb]; try by intros [].
  destruct (Api.initResend env); [|by intros []].
  cbn [snd fst]. intros [<-|[]]. split; [done|].
  by destruct (notifier _).
Qed.

Lemma limiter_of_checkLimit ip now requestStore :
  limiter_of (requests (snd (checkLimit ip now None (limiter_of requestStore)))) =
  snd (checkLimit ip now None (limiter_of requestStore)).
Proof.
  unfold checkLimit, limiter_of. cbn [limit windowMs requests].
  by destruct (Api.RATE_LIMIT <=? _).
Qed.

Lemma store_after_limiter env arrivals requestStore :
  limiter_of (store_after env arrivals requestStore) =
  exec_all (omap as_call arrivals) (limiter_of requestStore).
Proof.
  revert requestStore. induction arrivals as [|a arrivals IH]; intros requestStore;
    [done|].
  cbn [store_after omap list_omap]. rewrite IH, handler_store. unfold as_call.
  destruct (rate_checked (request a)); [|done].
  cbn [exec_all exec]. rewrite checkRateLimit_checkLimit. cbn [snd].
  by rewrite limiter_of_checkLimit.
Qed.

(** X8: the limiter written into api/mcp.js is the [RateLimiter] of
    lib/validators.js with capacity 10 and a window of 60000 ms, without
    its cleanup sweep.  [checkRateLimit] gives the answer of [checkLimit]
    and leaves the store [checkLimit] leaves; and over any sequence of
    requests the store the handler ends with is the state that limiter
    reaches under one [checkLimit(clientIp)] for each request that is
    neither OPTIONS nor answered 405. *)
Theorem requestStore_is_RateLimiter :
  (forall ip now requestStore,
     Api.checkRateLimit ip now requestStore =
     (fst (checkLimit ip now None (limiter_of requestStore)),
      requests (snd (checkLimit ip now None (limiter_of requestStore))))) /\
  (forall env arrivals requestStore,
     limiter_of (store_after env arrivals requestStore) =
     exec_all (omap as_call arrivals) (limiter_of requestStore)).
Proof.
  split.
  - apply checkRateLimit_checkLimit.
  - apply store_after_limiter.
Qed.

Lemma emailed_admitted ip now env arrivals requestStore :
  (emailed_within ip now env arrivals requestStore <=
   count_admitted_within ip now (omap as_call arrivals) (limiter_of requestStore))%nat.
Proof.
  revert requestStore. induction arrivals as [|a arrivals IH]; intros requestStore;
    [done|].
  cbn [emailed_within omap list_omap]. cbv zeta.
  specialize (IH (Api.store (Api.handler env (transport a) (at_time a)
                               requestStore (request a)))).
  rewrite handler_store in IH |- *. unfold as_call in IH |- *.
  pose proof (handler_one env (transport a) (at_time a) requestStore (request a)) as Hone.
  destruct (rate_checked (request a)) eqn:Hchecked.
  - cbn [count_admitted_within admitted_within exec].
    rewrite checkRateLimit_checkLimit in IH |- *. cbn [snd] in IH |- *.
    rewrite limiter_of_checkLimit in IH.
    destruct (bool_decide (Api.clientIp (request a) = ip)); cbn [andb]; [|lia].
    destruct (bool_decide (now - at_time a < Api.RATE_WINDOW)) eqn:Hwin;
      cbn [andb].
    + change (windowMs (limiter_of requestStore)) with Api.RATE_WINDOW.
      rewrite Hwin, andb_true_r.
      destruct (Api.sent (Api.handler env (transport a) (at_time a) requestStore
                            (request a))) as [|email rest] eqn:Hsent; [cbn; lia|].
      assert (Hin : In email (Api.sent (Api.handler env (transport a) (at_time a)
                                          requestStore (request a))))
        by (rewrite Hsent; by left).
      apply handler_sent in Hin as [Hrate _].
      rewrite checkRateLimit_checkLimit in Hrate. cbn [fst] in Hrate.
      rewrite Hrate. cbn [length] in Hone |- *. lia.
    + lia.
  - destruct (Api.sent (Api.handler env (transport a) (at_time a) requestStore
                          (request a))) as [|email rest] eqn:Hsent.
    + destruct (_ && _); cbn [length]; lia.
    + assert (Hin : In email (Api.sent (Api.handler env (transport a) (at_time a)
                                          requestStore (request a))))
        by (rewrite Hsent; by left).
      apply handler_sent in Hin as [_ (args & [[Hpost _] _] & _)].
      unfold rate_checked in Hchecked. rewrite Hpost in Hchecked.
      rewrite bool_decide_false, bool_decide_true in Hchecked by done.
      discriminate.
Qed.

Lemma as_call_clock now arrivals :
  Forall (fun a => at_time a <= now) arrivals ->
  Forall (fun c => Forall (fun t => t <= now) (clock_readings c))
         (omap as_call arrivals).
Proof.
  induction 1 as [|a arrivals Ha _ IH]; [constructor|].
  cbn [omap list_omap]. unfold as_call at 1.
  destruct (rate_checked (request a)); [|exact IH].
  constructor; [|exact IH]. cbn [clock_readings]. by repeat constructor.
Qed.

Lemma as_call_no_reset ip arrivals :
  Forall (fun c => resets ip c = false) (omap as_call arrivals).
Proof.
  induction arrivals as [|a arrivals IH]; [constructor|].
  cbn [omap list_omap]. unfold as_call at 1.
  destruct (rate_checked (request a)); [|exact IH].
  by constructor.
Qed.

(** X9: at most ten bookings of a client are mailed per minute.  Over
    any sequence of requests handled from the empty store, with clock
    readings not later than [now], the messages handed to the mail
    transport for requests of one client IP that arrived within
    [RATE_WINDOW] of [now] number at most [RATE_LIMIT]. *)
Theorem emails_rate_limited env (arrivals : list Arrival) (ip : string) (now : Z) :
  Forall (fun a => at_time a <= now) arrivals ->
  Z.of_nat (emailed_within ip now env arrivals ∅) <= Api.RATE_LIMIT.
Proof.
  intros Hclock.
  pose proof (emailed_admitted ip now env arrivals ∅) as Hle.
  pose proof (RateLimiterMore.admitted_fit (limiter_of ∅) (omap as_call arrivals) ip now
                (RateLimiterFacts.bounded_new Api.RATE_LIMIT Api.RATE_WINDOW)
                (as_call_clock now arrivals Hclock) (as_call_no_reset ip arrivals))
    as Hfit.
  cbn [limit limiter_of] in Hfit. unfold Api.RATE_LIMIT in Hfit |- *. lia.
Qed.

(** X10: the handler never forgets a client.  Nothing removes an entry
    from [requestStore]: over any sequence of requests every client IP
    that has an entry keeps one, so the store grows with each new
    client. *)
Theorem store_never_shrinks env (arrivals : list Arrival)
    (requestStore : gmap string (list Z)) (ip : string) :
  is_Some (requestStore !! ip) ->
  is_Some (store_after env arrivals requestStore !! ip).
Proof.
  revert requestStore. induction arrivals as [|a arrivals IH]; intros requestStore Hip;
    [done|].
  cbn [store_after]. apply IH. rewrite handler_store.
  destruct (rate_checked (request a)); [|done].
  unfold Api.checkRateLimit. destruct (Api.RATE_LIMIT <=? _); cbn [snd]; [done|].
  rewrite lookup_insert. by destruct (decide _).
Qed.

End TrafficFacts.

(** ** The phone check of the dispatchers, and what they mail *)

Module MessageFacts.
Import Js Regex RegexFacts Booking PhoneSpec PhoneFacts DispatchSpec DispatcherFacts.
Import MessageSpec.

Lemma server_validatePhone_unfold p :
  Server.validatePhone (JStr p) =
  if Nat.eqb (length (digits_of p)) 10
  then {| Server.valid := true; Server.cleaned := Some (canonical (digits_of p)) |}
  else {| Server.valid := false; Server.cleaned := None |}.
Proof.
  unfold Server.validatePhone.
  change Api.re_non_digit with Validators.re_non_digit.
  rewrite digits_of_remove. by destruct (Nat.eqb _ 10).
Qed.

Lemma api_validatePhone_unfold p :
  Api.validatePhone (JStr p) =
  Return (if Nat.eqb (length (digits_of p)) 10
          then {| Api.valid := true; Api.cleaned := Some (canonical (digits_of p)) |}
          else {| Api.valid := false; Api.cleaned := None |}).
Proof.
  unfold Api.validatePhone.
  change Api.re_non_digit with Validators.re_non_digit.
  rewrite digits_of_remove. by destruct (Nat.eqb _ 10).
Qed.

(** X11: the phone check of the two dispatchers.  [validatePhone] of
    index.js accepts a string exactly when it holds ten digits, whatever
    stands between them, and returns them as DDD-DDD-DDDD;
    [validatePhone] of api/mcp.js returns the same on every string. *)
Theorem dispatcher_validatePhone (p : str) :
  (Server.valid (Server.validatePhone (JStr p)) = true <->
   length (digits_of p) = 10%nat) /\
  (length (digits_of p) = 10%nat ->
   Server.cleaned (Server.validatePhone (JStr p)) = Some (canonical (digits_of p)) /\
   is_canonical (canonical (digits_of p))) /\
  (length (digits_of p) <> 10%nat ->
   Server.cleaned (Server.validatePhone (JStr p)) = None) /\
  exists r,
    Api.validatePhone (JStr p) = Return r /\
    Api.valid r = Server.valid (Server.validatePhone (JStr p)) /\
    Api.cleaned r = Server.cleaned (Server.validatePhone (JStr p)).
Proof.
  rewrite server_validatePhone_unfold, api_validatePhone_unfold.
  destruct (Nat.eqb_spec (length (digits_of p)) 10) as [Hlen|Hlen]; cbn.
  - split; [done|]. split; [|split; [done|by eexists]].
    intros _. split; [done|]. apply canonical_shape; [done|apply digits_of_all].
  - split; [done|]. split; [done|]. split; [done|by eexists].
Qed.

(** X12: the library validator against the dispatchers' copies.  A
    phone number that [validatePhone] of lib/validators.js accepts holds
    ten or eleven digits; [validatePhone] of index.js and the one of
    api/mcp.js each accept it exactly when it is written without the
    country code, with ten digits, and then return the form the library
    returns; written with the country code, eleven digits, both refuse
    it. *)
Theorem library_phone_in_dispatcher (p : str) :
  Validators.valid (Validators.validatePhone (JStr p)) = true ->
  (length (digits_of p) = 10%nat \/ length (digits_of p) = 11%nat) /\
  (Server.valid (Server.validatePhone (JStr p)) = true <->
   length (digits_of p) = 10%nat) /\
  (length (digits_of p) = 10%nat ->
   Server.cleaned (Server.validatePhone (JStr p)) =
     Validators.cleaned (Validators.validatePhone (JStr p))) /\
  exists r,
    Api.validatePhone (JStr p) = Return r /\
    (Api.valid r = true <-> length (digits_of p) = 10%nat) /\
    (length (digits_of p) = 10%nat ->
     Api.cleaned r = Validators.cleaned (Validators.validatePhone (JStr p))).
Proof.
  intros Hv.
  assert (Hserver :
    (length (digits_of p) = 10%nat \/ length (digits_of p) = 11%nat) /\
    (Server.valid (Server.validatePhone (JStr p)) = true <->
     length (digits_of p) = 10%nat) /\
    (length (digits_of p) = 10%nat ->
     Server.cleaned (Server.validatePhone (JStr p)) =
       Validators.cleaned (Validators.validatePhone (JStr p)))).
  2: { destruct Hserver as (Hlen & Hvalid & Hclean).
       split; [done|]. split; [done|]. split; [done|].
       rewrite api_validatePhone_unfold. eexists. split; [reflexivity|].
       revert Hvalid Hclean. rewrite server_validatePhone_unfold.
       by destruct (Nat.eqb (length (digits_of p)) 10). }
  revert Hv.
  rewrite validatePhone_unfold, server_validatePhone_unfold.
  destruct (acceptableb p) eqn:Hok; [|discriminate]. intros _.
  unfold acceptableb in Hok. rewrite !andb_true_iff in Hok.
  destruct Hok as [[Hlen _] _]. apply Nat.eqb_eq in Hlen.
  unfold national_number, without_country_code in Hlen |- *.
  destruct (digits_of p) as [|a d] eqn:Hd; [discriminate|].
  destruct (Nat.eqb_spec (length (a :: d)) 11) as [H11|H11]; cbn [andb] in Hlen |- *.
  - destruct (char_eqb a "1"); [|cbn [length] in *; lia].
    split; [by right|].
    destruct (Nat.eqb_spec (length (a :: d)) 10) as [H10|H10]; [lia|].
    cbn [Server.valid]. split; [split; [discriminate|done]|done].
  - split; [by left|]. rewrite Hlen, Nat.eqb_refl. cbn. done.
Qed.

Lemma api_sanitized_chars v m c :
  In c (Api.sanitizeString v m) -> Validators.is_special c = false.
Proof.
  destruct v; try (by intros []). cbn [Api.sanitizeString]. intros Hc.
  apply list_elem_of_In in Hc.
  apply (sublist_subseteq _ _ (slice0_sublist _ _)) in Hc.
  apply (sublist_subseteq _ _ (trim_sublist _)) in Hc.
  unfold Api.re_special in Hc. rewrite remove_all_Chr in Hc.
  apply list_elem_of_In, filter_In in Hc. destruct Hc as [_ Hc].
  by apply negb_true_iff.
Qed.

Lemma api_sanitized_length v m : 0 <= m -> len (Api.sanitizeString v m) <= m.
Proof.
  intros Hm. destruct v; cbn [Api.sanitizeString];
    try (unfold len; cbn [length]; lia).
  by apply slice0_length.
Qed.

Lemma split_on_nonempty sep s : split_on sep s <> [].
Proof.
  destruct s as [|c s]; cbn [split_on]; [done|].
  destruct (char_eqb c sep); [done|]. by destruct (split_on sep s).
Qed.

(** X13: what is mailed is sanitized.  Every message either dispatcher
    hands to the mail transport carries a name and an address free of
    [<], [>], double quotes and apostrophes, of at most 100 and 200
    characters, a name of at least 2 characters, a phone number of the
    form DDD-DDD-DDDD and at least one recipient. *)
Theorem mailed_fields_sanitized :
  (forall env notifier now requestStore req email,
     In email (Api.sent (Api.handler env notifier now requestStore req)) ->
     well_formed_message email) /\
  (forall env notifier request email,
     In email (Server.sent (Server.call_tool env notifier request)) ->
     well_formed_message email).
Proof.
  split.
  - intros env notifier now requestStore req email Hin.
    apply handler_sent in Hin as [_ (args & _ & Hin)].
    revert Hin. unfold Api.request_cleaning.
    destruct (negb _ || negb _ || negb _); [by intros []|].
    destruct (Z.ltb_spec (len (Api.sanitizeString (name args) 100)) 2);
      [by intros []|].
    destruct (phone args) as [| | | |p|]; try by intros [].
    rewrite api_validatePhone_unfold.
    destruct (Nat.eqb_spec (length (digits_of p)) 10) as [Hlen|Hlen];
      cbn [Api.valid Api.cleaned negb]; [|by intros []].
    destruct (Api.validateSFAddress _) as [[]|]; cbn [negb]; try by intros [].
    destruct (Api.initResend env); [|by intros []].
    cbn [snd]. intros [<-|[]]. unfold well_formed_message.
    cbn [customer_name customer_address customer_phone to].
    split; [|split; [|split; [|split]]].
    + intros c [Hc|Hc]; by eapply api_sanitized_chars.
    + split; [done|]. by apply api_sanitized_length.
    + by apply api_sanitized_length.
    + eexists. split; [done|]. apply canonical_shape; [done|apply digits_of_all].
    + intros Hto. apply map_eq_nil in Hto. by apply split_on_nonempty in Hto.
  - intros env notifier request email.
    unfold Server.call_tool.
    destruct (Api.is_text _ _); [|by intros []].
    set (args := arguments_or_empty _).
    destruct (negb _ || negb _ || negb _); [by intros []|].
    destruct (Z.ltb_spec (len (Server.sanitizeString (name args) 100)) 2);
      [by intros []|].
    destruct (phone args) as [| | | |p|]; try by intros [].
    rewrite server_validatePhone_unfold.
    destruct (Nat.eqb_spec (length (digits_of p)) 10) as [Hlen|Hlen];
      cbn [Server.valid Server.cleaned negb]; [|by intros []].
    destruct (len _ <? 10); [by intros []|].
    destruct (Server.validateSFAddress _); cbn [negb]; [|by intros []].
    cbn [Server.sent]. intros [<-|[]]. unfold well_formed_message.
    cbn [customer_name customer_address customer_phone to].
    change Server.sanitizeString with Api.sanitizeString.
    split; [|split; [|split; [|split]]].
    + intros c [Hc|Hc]; by eapply api_sanitized_chars.
    + split; [done|]. by apply api_sanitized_length.
    + by apply api_sanitized_length.
    + eexists. split; [done|]. apply canonical_shape; [done|apply digits_of_all].
    + intros Hto. apply map_eq_nil in Hto. by apply split_on_nonempty in Hto.
Qed.

End MessageFacts.

(** ** The matcher against the meaning of patterns *)

Module RegexMeaningFacts.
Import Js Regex RegexMeaning.

(** The matcher fails exactly when the continuation fails at every
    position the pattern can reach, and a result it gives is the result
    of the continuation at one of them. *)
Definition agrees (r : regex) : Prop :=
  forall c k,
    (run r c k = None -> forall c', matches r c c' -> k c' = None) /\
    (forall n, run r c k = Some n -> exists c', matches r c c' /\ k c' = Some n).

Lemma star_loop_agrees r1 k :
  agrees r1 ->
  forall fuel c, (length (snd c) <= fuel)%nat ->
    (star_loop (run r1) k fuel c = None ->
     forall c', iterate (matches r1) c c' -> k c' = None) /\
    (forall n, star_loop (run r1) k fuel c = Some n ->
     exists c', iterate (matches r1) c c' /\ k c' = Some n).
Proof.
  intros IH1. induction fuel as [|fuel IHf]; intros c Hlen; cbn [star_loop].
  - split.
    + intros Hk c' Hit. inversion Hit as [|c0 c1 c2 Hm1 Hlt Hit1]; subst; [done|].
      exfalso. unfold cursor, str in *. cbn in Hlen, Hlt. lia.
    + intros n Hk. exists c. split; [constructor|done].
  - match goal with |- context [run r1 c ?f] => set (k1 := f) end.
    destruct (IH1 c k1) as [Hnone Hsome].
    destruct (run r1 c k1) as [m|] eqn:Hrun.
    + split; [done|]. intros n [= <-].
      destruct (Hsome m eq_refl) as (c1 & Hm1 & Hk1). unfold k1 in Hk1.
      match type of Hk1 with
      | context [if ?b then _ else _] => destruct b eqn:Hltb
      end; [|discriminate].
      apply Nat.ltb_lt in Hltb.
      assert (Hc1 : (length (snd c1) <= fuel)%nat)
        by (unfold cursor, str in *; cbn in Hlen, Hltb |- *; lia).
      destruct (IHf c1 Hc1) as [_ Hs].
      destruct (Hs m Hk1) as (c' & Hit & Hk).
      exists c'. split; [|done]. eapply iterate_step; [exact Hm1|exact Hltb|exact Hit].
    + specialize (Hnone eq_refl). split.
      * intros Hk c' Hit. inversion Hit as [|? c1 ? Hm1 Hlt Hit1]; subst; [done|].
        specialize (Hnone c1 Hm1). unfold k1 in Hnone.
        apply Nat.ltb_lt in Hlt as Hltb.
        assert (Hc1 : (length (snd c1) <= fuel)%nat)
          by (unfold cursor, str in *; cbn in Hlen, Hlt |- *; lia).
        match type of Hnone with
        | context [if ?b then _ else _] => replace b with true in Hnone
        end.
        destruct (IHf c1 Hc1) as [Hn _]. by apply Hn.
      * intros n Hk. exists c. split; [constructor|done].
Qed.

Lemma run_agrees r : agrees r.
Proof.
  induction r as [|p|r1 IH1 r2 IH2|r1 IH1 r2 IH2|r1 IH1|r1 IH1| | |];
    intros c k; cbn [run matches].
  - split; [by intros Hk c' ->|]. intros n Hk. by exists c.
  - destruct (snd c) as [|a s] eqn:Hc.
    + split; [|done]. intros _ c' (a & s & Hs & _). discriminate.
    + destruct (p a) eqn:Hp.
      * split.
        -- intros Hk c' (a' & s' & [= <- <-] & _ & ->). done.
        -- intros n Hk. exists (Some a, s). split; [|done]. by exists a, s.
      * split; [|done].
        intros _ c' (a' & s' & [= <- <-] & Hp' & _). congruence.
  - destruct (IH1 c (fun c1 => run r2 c1 k)) as [Hn1 Hs1]. split.
    + intros Hrun c' (c1 & Hm1 & Hm2).
      specialize (Hn1 Hrun c1 Hm1). by apply (IH2 c1 k).
    + intros n Hrun. destruct (Hs1 n Hrun) as (c1 & Hm1 & Hrun2).
      destruct (IH2 c1 k) as [_ Hs2]. destruct (Hs2 n Hrun2) as (c' & Hm2 & Hk).
      exists c'. split; [by exists c1|done].
  - destruct (IH1 c k) as [Hn1 Hs1]. destruct (IH2 c k) as [Hn2 Hs2].
    destruct (run r1 c k) as [m|].
    + split; [done|]. intros n [= <-].
      destruct (Hs1 m eq_refl) as (c' & Hm & Hk). exists c'. split; [by left|done].
    + split.
      * intros Hrun c' [Hm|Hm]; [by apply Hn1 | by apply Hn2].
      * intros n Hrun. destruct (Hs2 n Hrun) as (c' & Hm & Hk).
        exists c'. split; [by right|done].
  - by apply star_loop_agrees.
  - destruct (IH1 c (fun _ => Some 0%nat)) as [Hn1 Hs1].
    destruct (run r1 c (fun _ => Some 0%nat)) as [m|].
    + split; [|done]. intros _ c' [_ Hno].
      destruct (Hs1 m eq_refl) as (c1 & Hm & _). destruct Hno. by exists c1.
    + split.
      * by intros Hk c' [-> _].
      * intros n Hk. exists c. split; [|done]. split; [done|].
        intros (c1 & Hm). by specialize (Hn1 eq_refl c1 Hm).
  - destruct (xorb _ _) eqn:Hb.
    + split; [by intros Hk c' [-> _]|]. intros n Hk. by exists c.
    + split; [|done]. by intros _ c' [_ Hb'].
  - destruct (fst c) eqn:Hc.
    + split; [|done]. by intros _ c' [_ Hc'].
    + split; [by intros Hk c' [-> _]|]. intros n Hk. by exists c.
  - destruct (snd c) eqn:Hc.
    + split; [by intros Hk c' [-> _]|]. intros n Hk. by exists c.
    + split; [|done]. by intros _ c' [_ Hc'].
Qed.

(** A match is found at a position exactly when the pattern matches
    there. *)
Lemma match_len_Some r prev s :
  is_Some (match_len r prev s) <-> exists c', matches r (prev, s) c'.
Proof.
  unfold match_len.
  destruct (run_agrees r (prev, s) (fun c' => Some (length (snd c')))) as [Hn Hs].
  destruct (run r (prev, s) _) as [m|].
  - split; [|by eauto]. intros _.
    destruct (Hs m eq_refl) as (c' & Hm & _). by exists c'.
  - split; [by intros [? ?]|]. intros (c' & Hm). by specialize (Hn eq_refl c' Hm).
Qed.

Lemma position_snoc prev pre a post :
  position prev (pre ++ [a]) post = (Some a, post).
Proof. unfold position. by rewrite last_snoc. Qed.

Lemma position_cons prev a pre post :
  position prev (a :: pre) post = position (Some a) pre post.
Proof. unfold position. rewrite last_cons. by destruct (last pre). Qed.

Lemma test_from_found r prev s :
  test_from r prev s = true <->
  exists pre post c', s = pre ++ post /\ matches r (position prev pre post) c'.
Proof.
  revert prev. induction s as [|a s IH]; intros prev; cbn [test_from].
  - destruct (match_len r prev []) as [n|] eqn:Hm.
    + split; [|done]. intros _.
      destruct (proj1 (match_len_Some r prev []) ltac:(by rewrite Hm)) as [c' Hc].
      by exists [], [], c'.
    + split; [done|]. intros (pre & post & c' & Hs & Hc).
      symmetry in Hs. apply app_eq_nil in Hs as [-> ->].
      assert (His : is_Some (match_len r prev [])) by (apply match_len_Some; eauto).
      rewrite Hm in His. by destruct His.
  - destruct (match_len r prev (a :: s)) as [n|] eqn:Hm.
    + split; [|done]. intros _.
      destruct (proj1 (match_len_Some r prev (a :: s)) ltac:(by rewrite Hm))
        as [c' Hc].
      by exists [], (a :: s), c'.
    + rewrite IH. split.
      * intros (pre & post & c' & -> & Hc).
        exists (a :: pre), post, c'. split; [done|]. by rewrite position_cons.
      * intros (pre & post & c' & Hs & Hc). destruct pre as [|b pre].
        -- cbn in Hs. subst post.
           assert (His : is_Some (match_len r prev (a :: s)))
             by (apply match_len_Some; eauto).
           rewrite Hm in His. by destruct His.
        -- injection Hs as <- ->. exists pre, post, c'. split; [done|].
           by rewrite position_cons in Hc.
Qed.

(** [re.test(s)] says whether the pattern matches somewhere in [s]. *)
Lemma test_found r s : test r s = true <-> found r s.
Proof. apply test_from_found. Qed.

End RegexMeaningFacts.

(** ** The e-mail validator *)

Module EmailFacts.
Import Js Regex RegexMeaning RegexMeaningFacts RegexFacts Validators EmailSpec NameSpec.

Lemma prefix_of_spec p s : prefix_of p s = true <-> exists post, s = p ++ post.
Proof.
  revert s. induction p as [|a p IH]; intros s; cbn [prefix_of].
  - split; [eauto|done].
  - destruct s as [|b s].
    + split; [done|]. intros [post Hp]. discriminate.
    + rewrite andb_true_iff, IH. unfold char_eqb. rewrite Ascii.eqb_eq. split.
      * intros [-> [post ->]]. eauto.
      * intros [post Hp]. injection Hp as -> ->. eauto.
Qed.

Lemma position_here (c : cursor) : position (fst c) [] (snd c) = c.
Proof. by destruct c. Qed.

(** The iterations of a one-character class take a run of characters of
    the class. *)
Lemma iterate_class p c c' :
  iterate (matches (Chr p)) c c' <->
  exists x rest, snd c = x ++ rest /\ forallb p x = true /\ c' = position (fst c) x rest.
Proof.
  split.
  - induction 1 as [c|c c1 c2 Hm Hlt _ IH].
    + exists [], (snd c). by rewrite position_here.
    + destruct Hm as (a & s & Hc & Hp & ->).
      destruct IH as (x & rest & Hs & Hx & ->). cbn [fst snd] in Hs.
      exists (a :: x), rest. cbn [forallb]. rewrite Hp, Hx, Hc, Hs.
      by rewrite position_cons.
  - intros (x & rest & Hs & Hx & ->). revert c Hs Hx.
    induction x as [|a x IH]; intros c Hs Hx.
    + cbn in Hs. rewrite <- Hs, position_here. constructor.
    + cbn [forallb] in Hx. apply andb_true_iff in Hx as [Ha Hx].
      apply (iterate_step _ c (Some a, x ++ rest)).
      * exists a, (x ++ rest). by rewrite Hs.
      * rewrite Hs. cbn. lia.
      * rewrite position_cons. by apply (IH (Some a, x ++ rest)).
Qed.

(** [C+] takes a non-empty run. *)
Lemma plus_class p c c' :
  matches (plus (Chr p)) c c' <->
  exists x rest,
    x <> [] /\ snd c = x ++ rest /\ forallb p x = true /\ c' = position (fst c) x rest.
Proof.
  unfold plus. cbn [matches]. split.
  - intros (c1 & (a & s & Hc & Hp & ->) & Hit).
    apply iterate_class in Hit as (x & rest & Hs & Hx & ->). cbn [fst snd] in Hs.
    exists (a :: x), rest. cbn [forallb].
    rewrite Hp, Hx, Hc, Hs, position_cons. done.
  - intros (x & rest & Hne & Hs & Hx & ->). destruct x as [|a x]; [done|].
    cbn [forallb] in Hx. apply andb_true_iff in Hx as [Ha Hx].
    exists (Some a, x ++ rest). split.
    + exists a, (x ++ rest). by rewrite Hs.
    + apply iterate_class. exists x, rest. by rewrite position_cons.
Qed.

Lemma chr_match a c c' :
  matches (chr a) c c' <-> exists rest, snd c = a :: rest /\ c' = (Some a, rest).
Proof.
  unfold chr. cbn [matches]. unfold char_eqb. split.
  - intros (b & s & Hc & Hb & ->). apply Ascii.eqb_eq in Hb as <-. by exists s.
  - intros (rest & Hc & ->). exists a, rest. by rewrite Ascii.eqb_refl.
Qed.

(** What [emailRegex] accepts. *)
Lemma emailRegex_spec t : test emailRegex t = true <-> email_text t.
Proof.
  rewrite test_found. unfold found, emailRegex, email_text. split.
  - intros (pre & post & c' & -> & Hm). cbn [matches] in Hm.
    destruct Hm as (c1 & [-> Hstart] & c2 & Hl & c3 & Hat & c4 & Hmid & c5 & Hdot &
                    c6 & Hr & -> & Hend).
    cbn [position fst] in Hstart.
    assert (pre = []) as ->.
    { destruct (last pre) eqn:Hlast; [done|]. by apply last_None. }
    apply plus_class in Hl as (l & rest1 & Hl & Hs1 & Hcl & ->).
    apply chr_match in Hat as (rest2 & Hs2 & ->).
    apply plus_class in Hmid as (m & rest3 & Hm & Hs3 & Hcm & ->).
    apply chr_match in Hdot as (rest4 & Hs4 & ->).
    apply plus_class in Hr as (r & rest5 & Hr & Hs5 & Hcr & ->).
    cbn [position fst snd] in *. subst.
    exists l, m, r. rewrite app_nil_r. done.
  - intros (l & m & r & -> & Hl & Hm & Hr & Hcl & Hcm & Hcr).
    exists [], (l ++ "@"%char :: m ++ "."%char :: r).
    eexists. split; [done|]. cbn [matches].
    eexists. split; [done|].
    eexists. split.
    { apply plus_class. exists l, ("@"%char :: m ++ "."%char :: r). done. }
    eexists. split.
    { apply chr_match. eexists. done. }
    eexists. split.
    { apply plus_class. exists m, ("."%char :: r). done. }
    eexists. split.
    { apply chr_match. eexists. done. }
    eexists. split.
    { apply plus_class. exists r, []. by rewrite app_nil_r. }
    done.
Qed.

Lemma split_on_notin sep s : ~ In sep s -> split_on sep s = [s].
Proof.
  induction s as [|c s IH]; intros Hs; cbn [split_on]; [done|].
  destruct (Ascii.eqb_spec c sep) as [->|Hne].
  - destruct Hs. by left.
  - unfold char_eqb. rewrite (proj2 (Ascii.eqb_neq _ _) Hne), IH; [done|].
    intros Hin. apply Hs. by right.
Qed.

Lemma split_on_app sep a b :
  ~ In sep a -> split_on sep (a ++ sep :: b) = a :: split_on sep b.
Proof.
  induction a as [|c a IH]; intros Ha; cbn [split_on app].
  - unfold char_eqb. by rewrite Ascii.eqb_refl.
  - destruct (Ascii.eqb_spec c sep) as [->|Hne].
    + destruct Ha. by left.
    + unfold char_eqb. rewrite (proj2 (Ascii.eqb_neq _ _) Hne), IH; [done|].
      intros Hin. apply Ha. by right.
Qed.

Lemma first_separator (sep : ascii) (s : str) :
  ~ In sep s \/ exists a b, s = a ++ sep :: b /\ ~ In sep a.
Proof.
  induction s as [|c s IH]; [left; intros []|].
  destruct (Ascii.eqb_spec c sep) as [->|Hne].
  - right. exists [], s. split; [done|]. intros [].
  - destruct IH as [Hs|(a & b & -> & Ha)].
    + left. intros [Hc|Hin]; [done|by apply Hs].
    + right. exists (c :: a), b. split; [done|]. by intros [Hc|Hin].
Qed.

Lemma split_on_single sep s a : split_on sep s = [a] -> s = a /\ ~ In sep s.
Proof.
  destruct (first_separator sep s) as [Hs|(a0 & b & -> & Ha)].
  - rewrite split_on_notin by done. by intros [= <-].
  - rewrite split_on_app by done. intros [= _ Hb]. by apply MessageFacts.split_on_nonempty in Hb.
Qed.

(** [s.split(sep)] has two pieces exactly when [sep] occurs once. *)
Lemma split_on_two (sep : ascii) (s a b : str) :
  split_on sep s = [a; b] <-> s = a ++ sep :: b /\ ~ In sep a /\ ~ In sep b.
Proof.
  split.
  - destruct (first_separator sep s) as [Hs|(a0 & b0 & -> & Ha)].
    + by rewrite split_on_notin.
    + rewrite split_on_app by done. intros [= -> Hb].
      apply split_on_single in Hb as [-> Hb]. done.
  - intros (-> & Ha & Hb). by rewrite split_on_app, split_on_notin.
Qed.

Lemma split_on_two_inv (sep : ascii) (s : str) :
  (exists a b, split_on sep s = [a; b]) \/
  (forall a b, split_on sep s <> [a; b]).
Proof.
  destruct (split_on sep s) as [|a [|b [|c l]]]; eauto.
Qed.

Lemma startsWith_dot d : startsWith d (lit ".") = false <-> forall rest, d <> "."%char :: rest.
Proof.
  unfold startsWith. destruct (prefix_of (lit ".") d) eqn:Hp.
  - apply prefix_of_spec in Hp as [post ->]. split; [done|].
    intros Hd. by destruct (Hd post).
  - split; [|done]. intros _ rest ->.
    assert (Ht : prefix_of (lit ".") ("."%char :: rest) = true)
      by (apply prefix_of_spec; by exists rest).
    congruence.
Qed.

Lemma endsWith_dot d : endsWith d (lit ".") = false <-> forall init, d <> init ++ ["."%char].
Proof.
  unfold endsWith. destruct (prefix_of (rev (lit ".")) (rev d)) eqn:Hp.
  - apply prefix_of_spec in Hp as [post Hp]. split; [done|].
    intros Hd. destruct (Hd (rev post)).
    rewrite <- (rev_involutive d), Hp. reflexivity.
  - split; [|done]. intros _ init ->.
    assert (Ht : prefix_of (rev (lit ".")) (rev (init ++ ["."%char])) = true).
    { apply prefix_of_spec. exists (rev init). by rewrite rev_app_distr. }
    congruence.
Qed.

(** X14: what [validateEmail] accepts.  A string is accepted exactly
    when, trimmed, it reads [local@name.rest] with three non-empty parts
    free of white space and of [@], and, as given, it splits at its only
    [@] into a local part of at most 64 characters and a domain of at
    most 255 that neither begins nor ends with a dot and has no two dots
    in a row. *)
Theorem validateEmail_spec (e : str) :
  validateEmail (JStr e) = true <-> email_text (trim e) /\ email_parts e.
Proof.
  unfold validateEmail, email_parts. rewrite <- emailRegex_spec.
  destruct (test emailRegex (trim e)); cbn [negb]; [|by split; [|intros []]].
  destruct (split_on_two_inv "@" e) as [(local & domain & Hsplit)|Hno].
  - rewrite Hsplit. apply split_on_two in Hsplit as (He & Hl & Hd).
    destruct (Z.gtb_spec (len local) 64) as [H64|H64].
    { split; [done|]. intros [_ (l' & d' & He' & Hl' & Hd' & Hlen & _)].
      assert (Hs : split_on "@" e = [l'; d']) by (by apply split_on_two).
      rewrite He, split_on_app, split_on_notin in Hs by done.
      injection Hs as <- <-. lia. }
    destruct (Z.gtb_spec (len domain) 255) as [H255|H255].
    { split; [done|]. intros [_ (l' & d' & He' & Hl' & Hd' & _ & Hlen & _)].
      assert (Hs : split_on "@" e = [l'; d']) by (by apply split_on_two).
      rewrite He, split_on_app, split_on_notin in Hs by done.
      injection Hs as <- <-. lia. }
    destruct (startsWith domain (lit ".")) eqn:Hst; cbn [orb].
    { split; [done|]. intros [_ (l' & d' & He' & Hl' & Hd' & _ & _ & Hs' & _)].
      assert (Hs : split_on "@" e = [l'; d']) by (by apply split_on_two).
      rewrite He, split_on_app, split_on_notin in Hs by done.
      injection Hs as <- <-. apply startsWith_dot in Hs'. congruence. }
    destruct (endsWith domain (lit ".")) eqn:Hen.
    { split; [done|]. intros [_ (l' & d' & He' & Hl' & Hd' & _ & _ & _ & He'' & _)].
      assert (Hs : split_on "@" e = [l'; d']) by (by apply split_on_two).
      rewrite He, split_on_app, split_on_notin in Hs by done.
      injection Hs as <- <-. apply endsWith_dot in He''. congruence. }
    destruct (includes domain (lit "..")) eqn:Hdd.
    { split; [done|]. intros [_ (l' & d' & He' & Hl' & Hd' & _ & _ & _ & _ & Hdd')].
      assert (Hs : split_on "@" e = [l'; d']) by (by apply split_on_two).
      rewrite He, split_on_app, split_on_notin in Hs by done.
      injection Hs as <- <-. apply includes_spec in Hdd. by destruct Hdd'. }
    split; [|done]. intros _. split; [done|].
    exists local, domain. repeat split; try done.
    + by apply startsWith_dot.
    + by apply endsWith_dot.
    + intros Hocc. apply includes_spec in Hocc. congruence.
  - split.
    + destruct (split_on "@" e) as [|a [|b [|c l]]]; try done.
      by destruct (Hno a b).
    + intros [_ (l' & d' & He' & Hl' & Hd' & _)].
      destruct (Hno l' d'). by apply split_on_two.
Qed.

End EmailFacts.

(** ** What the sanitizers keep *)

Module SanitizerMore.
Import Js Regex RegexMeaning RegexNeeds RegexMeaningFacts RegexFacts SanitizerSpec.

Lemma all_chars_complete a : In a all_chars.
Proof.
  unfold all_chars. apply in_map_iff. exists (nat_of_ascii a). split.
  - apply ascii_nat_embedding.
  - apply in_seq. pose proof (nat_ascii_bounded a). lia.
Qed.

Lemma class_within_spec p q a : class_within p q = true -> p a = true -> q a = true.
Proof.
  unfold class_within. rewrite forallb_forall. intros Hall Hp.
  specialize (Hall a (all_chars_complete a)). by rewrite Hp in Hall.
Qed.

(** A match ends inside the text it began in. *)
Lemma matches_suffix r c c' : matches r c c' -> exists x, snd c = x ++ snd c'.
Proof.
  revert c c'.
  induction r as [|p|r1 IH1 r2 IH2|r1 IH1 r2 IH2|r1 IH1|r1 IH1| | |];
    intros c c'; cbn [matches].
  - intros ->. by exists [].
  - intros (a & s & Hc & _ & ->). exists [a]. by rewrite Hc.
  - intros (c1 & H1 & H2).
    destruct (IH1 _ _ H1) as [x Hx]. destruct (IH2 _ _ H2) as [y Hy].
    exists (x ++ y). by rewrite Hx, Hy, app_assoc.
  - intros [H1|H2]; eauto.
  - induction 1 as [c|c c1 c2 Hm _ _ [y Hy]].
    + by exists [].
    + destruct (IH1 _ _ Hm) as [x Hx]. exists (x ++ y). by rewrite Hx, Hy, app_assoc.
  - intros [-> _]. by exists [].
  - intros [-> _]. by exists [].
  - intros [-> _]. by exists [].
  - intros [-> _]. by exists [].
Qed.

Lemma needs_sound q r c c' :
  needs q r = true -> matches r c c' -> exists a, In a (snd c) /\ q a = true.
Proof.
  revert c c'.
  induction r as [|p|r1 IH1 r2 IH2|r1 IH1 r2 IH2|r1 IH1|r1 IH1| | |];
    intros c c'; cbn [needs matches]; try done.
  - intros Hpq (a & s & Hc & Hp & _). exists a. split.
    + rewrite Hc. by left.
    + by apply (class_within_spec p).
  - intros Hn (c1 & H1 & H2). apply orb_true_iff in Hn as [Hn|Hn].
    + by apply (IH1 c c1).
    + destruct (IH2 c1 c' Hn H2) as (a & Ha & Hq).
      destruct (matches_suffix _ _ _ H1) as [x Hx].
      exists a. split; [|done]. rewrite Hx. apply in_or_app. by right.
  - intros Hn [H1|H2]; apply andb_true_iff in Hn as [Hn1 Hn2]; eauto.
Qed.

(** A replacement finds nothing in a text without the characters its
    pattern needs. *)
Lemma remove_all_clean q r s :
  needs q r = true -> Forall (fun a => q a = false) s -> remove_all r s = s.
Proof.
  intros Hn. unfold remove_all. generalize (@None ascii).
  induction s as [|a s IH]; intros prev Hs; [done|].
  cbn [remove_from].
  destruct (match_len r prev (a :: s)) as [n|] eqn:Hm.
  - assert (Hsome : is_Some (match_len r prev (a :: s))) by (by rewrite Hm).
    apply match_len_Some in Hsome as [c' Hc'].
    destruct (needs_sound q r _ _ Hn Hc') as (b & Hb & Hq).
    rewrite Forall_forall in Hs. cbn [snd] in Hb.
    specialize (Hs b). rewrite Hq in Hs. by discriminate Hs; apply list_elem_of_In.
  - rewrite IH; [done|]. by inversion Hs.
Qed.

Lemma slice0_all s m : len s <= m -> slice0 s m = s.
Proof.
  unfold slice0, len. intros Hm.
  destruct (Z.ltb_spec m 0); [lia|].
  apply take_ge. lia.
Qed.

Lemma drop_spaces_head t b u : drop_spaces t = b :: u -> is_space b = false.
Proof.
  induction t as [|c t IH]; cbn [drop_spaces]; [done|].
  destruct (is_space c) eqn:Hc; [apply IH|]. by intros [= <- _].
Qed.

Lemma trim_starts_visible a rest s : trim s = a :: rest -> is_space a = false.
Proof.
  unfold trim. intros Ht.
  assert (Hd : drop_spaces (rev (drop_spaces s)) = rev (a :: rest))
    by (by rewrite <- Ht, rev_involutive).
  destruct (drop_spaces_suffix (rev (drop_spaces s))) as [pre Hrev].
  rewrite Hd in Hrev. apply (f_equal (@rev ascii)) in Hrev.
  rewrite rev_involutive, rev_app_distr, rev_involutive in Hrev.
  by apply drop_spaces_head in Hrev.
Qed.

Lemma slice0_prefix s m : exists post, s = slice0 s m ++ post.
Proof. unfold slice0. eexists. symmetry. apply take_drop. Qed.

Lemma sanitized_head s m a rest :
  slice0 (trim s) m = a :: rest -> is_space a = false.
Proof.
  intros Hs. destruct (slice0_prefix (trim s) m) as [post Hp].
  rewrite Hs in Hp. by apply trim_starts_visible in Hp.
Qed.

(** X15: the sanitizers only delete.  Whatever the three copies of
    [sanitizeString] return on a string is a subsequence of it, nothing is
    added, replaced or reordered, and it never begins with a white-space
    character. *)
Theorem sanitizeString_only_deletes (s : str) (m : Z) :
  (sublist (Validators.sanitizeString (JStr s) m) s /\
   sublist (Api.sanitizeString (JStr s) m) s /\
   sublist (Server.sanitizeString (JStr s) m) s) /\
  (forall a rest,
     Validators.sanitizeString (JStr s) m = a :: rest \/
     Api.sanitizeString (JStr s) m = a :: rest \/
     Server.sanitizeString (JStr s) m = a :: rest ->
     is_space a = false).
Proof.
  split.
  - cbn [Validators.sanitizeString Api.sanitizeString Server.sanitizeString].
    repeat split;
      repeat first
        [ apply remove_all_sublist
        | etrans; [first [apply slice0_sublist | apply trim_sublist
                         | apply remove_all_sublist]|] ].
  - cbn [Validators.sanitizeString Api.sanitizeString Server.sanitizeString].
    intros a rest [H|[H|H]]; by apply sanitized_head in H.
Qed.

Lemma sanitizeString_keeps_clean_parts s m :
  trim s = s -> len s <= m ->
  Forall (fun c => Validators.is_special c = false) s ->
  Api.sanitizeString (JStr s) m = s /\ Server.sanitizeString (JStr s) m = s.
Proof.
  intros Htrim Hlen Hs.
  cbn [Api.sanitizeString Server.sanitizeString].
  rewrite (remove_all_clean Validators.is_special Api.re_tag s) by done.
  rewrite (remove_all_clean Validators.is_special Api.re_special s) by done.
  rewrite Htrim, slice0_all by done. done.
Qed.

(** X16: clean text passes the sanitizers unchanged.  A string without
    white space at either end and of at most [m] characters is returned
    as it is by [sanitizeString] of the two dispatchers when it holds
    none of [<], [>], the double quote and the apostrophe, and by the one
    of lib/validators.js when it holds no colon and no equals sign
    either. *)
Theorem sanitizeString_keeps_clean (s : str) (m : Z) :
  trim s = s -> len s <= m ->
  (Forall (fun c => Validators.is_special c = false) s ->
   Api.sanitizeString (JStr s) m = s /\ Server.sanitizeString (JStr s) m = s) /\
  (Forall (fun c => is_markup c = false) s ->
   Validators.sanitizeString (JStr s) m = s).
Proof.
  intros Htrim Hlen. split.
  - intros Hs. by apply sanitizeString_keeps_clean_parts.
  - intros Hs. cbn [Validators.sanitizeString].
    rewrite (remove_all_clean is_markup Validators.re_script s) by done.
    rewrite (remove_all_clean is_markup Validators.re_style s) by done.
    rewrite (remove_all_clean is_markup Validators.re_tag s) by done.
    rewrite (remove_all_clean is_markup Validators.re_special s) by done.
    rewrite (remove_all_clean is_markup Validators.re_javascript s) by done.
    rewrite (remove_all_clean is_markup Validators.re_handler s) by done.
    rewrite Htrim, slice0_all by done. done.
Qed.

End SanitizerMore.

(** ** The region classifiers *)

Module ClassifierMore.
Import Js Regex RegexMeaning RegexMeaningFacts RegexFacts NameSpec ClassifierSpec.
Import Validators EmailFacts.

Lemma plain_body w e c c' :
  ~ In "."%char w -> matches (indicator_body e w) c c' <-> reads (eq w) c c'.
Proof.
  revert e c. induction w as [|a w IH]; intros e c Hw; cbn [indicator_body].
  - cbn [matches]. unfold reads. split.
    + intros ->. exists [], (snd c). by rewrite position_here.
    + intros (w & rest & <- & Hs & ->). cbn in Hs. by rewrite <- Hs, position_here.
  - destruct (Ascii.eqb_spec a ".") as [->|Hne]; [destruct Hw; by left|].
    unfold char_eqb. rewrite (proj2 (Ascii.eqb_neq _ _) Hne).
    cbn [matches]. fold (chr a). unfold reads. split.
    + intros (c1 & Ha & Hb). apply chr_match in Ha as (rest1 & Hs & ->).
      apply IH in Hb as (w' & rest & <- & Hs' & ->); [|intros Hin; apply Hw; by right].
      cbn [fst snd] in *. exists (a :: w), rest.
      by rewrite Hs, Hs', position_cons.
    + intros (w' & rest & <- & Hs & ->). exists (Some a, w ++ rest). split.
      * apply chr_match. by exists (w ++ rest).
      * apply IH; [intros Hin; apply Hw; by right|].
        exists w, rest. by rewrite position_cons.
Qed.

Lemma word_before_start pre post :
  word_before (position None pre post) = ends_word pre.
Proof. unfold word_before, position, ends_word. cbn [fst]. by destruct (last pre). Qed.

Lemma word_before_after prev w rest :
  w <> [] -> word_before (position prev w rest) = ends_word w.
Proof.
  intros Hw. unfold word_before, position, ends_word. cbn [fst].
  destruct (last w) eqn:Hl; [done|]. by apply last_None in Hl.
Qed.

Lemma starts_word_app w rest : w <> [] -> starts_word (w ++ rest) = starts_word w.
Proof. by destruct w. Qed.

(** A pattern between two word boundaries. *)
Lemma bounded_found r W s :
  (forall c c', matches r c c' <-> reads W c c') ->
  (forall w, W w -> w <> []) ->
  found (WordB +> r +> WordB) s <->
  exists w pre post,
    W w /\ s = pre ++ w ++ post /\
    xorb (ends_word pre) (starts_word w) = true /\
    xorb (ends_word w) (starts_word post) = true.
Proof.
  intros Hbody Hne. unfold found. cbn [matches]. split.
  - intros (pre & post & c' & -> & c1 & [-> Hb1] & c2 & Hr & -> & Hb2).
    apply Hbody in Hr as (w & rest & Hw & Hs & ->). cbn [position snd fst] in Hs.
    subst post. pose proof (Hne w Hw) as Hw0.
    exists w, pre, rest. split; [done|]. split; [done|].
    rewrite word_before_start in Hb1.
    rewrite word_before_after in Hb2 by done.
    unfold word_after in Hb1, Hb2. cbn [position snd] in Hb1, Hb2.
    fold (starts_word (w ++ rest)) in Hb1. fold (starts_word rest) in Hb2.
    by rewrite starts_word_app in Hb1.
  - intros (w & pre & post & Hw & -> & Hb1 & Hb2). pose proof (Hne w Hw) as Hw0.
    exists pre, (w ++ post), (position (fst (position None pre (w ++ post))) w post).
    split; [done|].
    exists (position None pre (w ++ post)). split.
    { split; [done|]. rewrite word_before_start. unfold word_after.
      cbn [position snd]. fold (starts_word (w ++ post)).
      by rewrite starts_word_app. }
    eexists. split.
    { apply Hbody. by exists w, post. }
    split; [done|]. by rewrite word_before_after.
Qed.

Lemma xorb_true_r_iff b : xorb b true = true <-> b = false.
Proof. by destruct b. Qed.

Lemma xorb_true_l_iff b : xorb true b = true <-> b = false.
Proof. by destruct b. Qed.

(** An indicator without a dot is looked for as a whole word. *)
Lemma no_dot w : forallb (fun a => negb (char_eqb a ".")) w = true -> ~ In "."%char w.
Proof.
  rewrite forallb_forall. intros Hall Hin. specialize (Hall _ Hin).
  unfold char_eqb in Hall. by rewrite Ascii.eqb_refl in Hall.
Qed.

Lemma indicator_whole_word (w : string) s :
  forallb (fun a => negb (char_eqb a ".")) (lit w) = true ->
  starts_word (lit w) = true -> ends_word (lit w) = true ->
  found (indicator_regex w) s <-> whole_word (lit w) s.
Proof.
  intros Hdot%no_dot Hsw Hew. unfold indicator_regex.
  rewrite (bounded_found _ (eq (lit w))).
  - unfold whole_word. split.
    + intros (w' & pre & post & <- & -> & H1 & H2).
      rewrite Hsw in H1. rewrite Hew in H2.
      apply xorb_true_r_iff in H1. apply xorb_true_l_iff in H2.
      by exists pre, post.
    + intros (pre & post & -> & H1 & H2).
      exists (lit w), pre, post. by rewrite H1, H2, Hsw, Hew.
  - intros c c'. by apply plain_body.
  - intros w' <- Hnil. by rewrite Hnil in Hsw.
Qed.

(** The pattern built from [s.f.]. *)
Lemma abbreviation_found s :
  found (indicator_regex "s.f.") s <-> abbreviation s.
Proof.
  unfold indicator_regex.
  rewrite (bounded_found _
             (fun w => exists x, w = lit "s.f" ++ [x] /\ is_line_terminator x = false)).
  - unfold abbreviation. split.
    + intros (w & pre & post & (x & -> & Hx) & -> & H1 & H2).
      apply xorb_true_r_iff in H1. exists pre, x, post.
      rewrite <- app_assoc. done.
    + intros (pre & x & post & -> & H1 & Hx & H2).
      exists (lit "s.f" ++ [x]), pre, post. rewrite <- app_assoc.
      split; [by exists x|]. split; [done|]. by rewrite H1.
  - intros c c'. cbn [indicator_body lit list_ascii_of_string matches].
    change (char_eqb "s" ".") with false. change (char_eqb "f" ".") with false.
    change (char_eqb "." ".") with true. cbn [matches]. unfold reads, dot. split.
    + intros (c1 & Hs & c2 & Hd & c3 & Hf & c4 & (x & rest & Hx & Hnl & ->) & ->).
      apply chr_match in Hs as (r1 & Hs1 & ->).
      apply chr_match in Hd as (r2 & Hs2 & ->).
      apply chr_match in Hf as (r3 & Hs3 & ->).
      cbn [snd] in *. subst.
      exists (lit "s.f" ++ [x]), rest. split.
      * exists x. split; [done|]. by apply negb_true_iff.
      * by rewrite Hs1.
    + intros (w & rest & (x & -> & Hx) & Hs & ->).
      exists (Some "s"%char, lit ".f" ++ x :: rest). split.
      { apply chr_match. eexists. by rewrite Hs. }
      exists (Some "."%char, lit "f" ++ x :: rest). split.
      { apply chr_match. by eexists. }
      exists (Some "f"%char, x :: rest). split.
      { apply chr_match. by eexists. }
      exists (Some x, rest). split; [|done].
      exists x, rest. by rewrite Hx.
  - intros w (x & -> & _). done.
Qed.

Lemma found_equiv r r' s :
  (forall c c', matches r c c' <-> matches r' c c') -> found r s <-> found r' s.
Proof.
  intros Heq. unfold found. split; intros (pre & post & c' & Hs & Hm);
    exists pre, post, c'; (split; [done|]); by apply Heq.
Qed.

Lemma digit_is_word a : is_digit a = true -> is_word a = true.
Proof. intros Ha. unfold is_word. by rewrite Ha, orb_true_r. Qed.

(** The zip pattern of the library. *)
Lemma zip_found s : found Validators.re_zip s <-> exists z, sf_zip z /\ whole_word z s.
Proof.
  set (body := word "94" +>
       Alt (chr "1" +> Chr (between 48 56) +> Chr is_digit)
           (chr "0" +> Chr is_digit +> Chr is_digit)).
  rewrite (found_equiv _ (WordB +> body +> WordB)).
  2: { intros c c'. unfold Validators.re_zip, body. cbn [matches]. split.
       - intros (c1 & H1 & c2 & H2 & c3 & H3 & H4). eauto 10.
       - intros (c1 & H1 & c3 & (c2 & H2 & H3) & H4). eauto 10. }
  rewrite (bounded_found _ sf_zip).
  - unfold whole_word. split.
    + intros (z & pre & post & Hz & -> & H1 & H2). exists z. split; [done|].
      exists pre, post. split; [done|].
      destruct Hz as (d4 & d5 & Hd5 & [[-> _]|[-> _]]);
        cbn [starts_word lit list_ascii_of_string app] in H1;
        change (is_word "9") with true in H1;
        apply xorb_true_r_iff in H1;
        unfold ends_word in H2; cbn [last lit list_ascii_of_string app] in H2;
        rewrite (digit_is_word d5 Hd5) in H2; by apply xorb_true_l_iff in H2.
    + intros (z & Hz & pre & post & -> & H1 & H2). exists z, pre, post.
      split; [done|]. split; [done|].
      destruct Hz as (d4 & d5 & Hd5 & [[-> _]|[-> _]]);
        cbn [starts_word lit list_ascii_of_string app];
        change (is_word "9") with true;
        unfold ends_word at 2; cbn [last lit list_ascii_of_string app];
        by rewrite (digit_is_word d5 Hd5), H1, H2.
  - intros c c'. unfold body, word. cbn [seq_of lit list_ascii_of_string matches].
    unfold reads. split.
    + intros (c2 & (c1 & H9 & H4) & [(c3 & H1 & c4 & Hd4 & Hd5)|(c3 & H1 & c4 & Hd4 & Hd5)]);
        apply chr_match in H9 as (r1 & Hs1 & ->);
        apply chr_match in H4 as (r2 & Hs2 & ->);
        apply chr_match in H1 as (r3 & Hs3 & ->);
        destruct Hd4 as (d4 & r4 & Hs4 & Hp4 & ->);
        destruct Hd5 as (d5 & r5 & Hs5 & Hp5 & ->);
        cbn [snd] in *; subst.
      * exists (lit "941" ++ [d4; d5]), r5. split; [|by rewrite Hs1].
        exists d4, d5. split; [done|]. by left.
      * exists (lit "940" ++ [d4; d5]), r5. split; [|by rewrite Hs1].
        exists d4, d5. split; [done|]. by right.
    + intros (z & rest & (d4 & d5 & Hd5 & [[-> Hd4]|[-> Hd4]]) & Hs & ->).
      * exists (Some "4"%char, "1"%char :: d4 :: d5 :: rest). split.
        { exists (Some "9"%char, "4"%char :: "1"%char :: d4 :: d5 :: rest).
          split; apply chr_match; eexists; [by rewrite Hs|done]. }
        left. exists (Some "1"%char, d4 :: d5 :: rest). split.
        { apply chr_match. by eexists. }
        exists (Some d4, d5 :: rest). split; [by exists d4, (d5 :: rest)|].
        by exists d5, rest.
      * exists (Some "4"%char, "0"%char :: d4 :: d5 :: rest). split.
        { exists (Some "9"%char, "4"%char :: "0"%char :: d4 :: d5 :: rest).
          split; apply chr_match; eexists; [by rewrite Hs|done]. }
        right. exists (Some "0"%char, d4 :: d5 :: rest). split.
        { apply chr_match. by eexists. }
        exists (Some d4, d5 :: rest). split; [by exists d4, (d5 :: rest)|].
        by exists d5, rest.
  - intros z (d4 & d5 & _ & [[-> _]|[-> _]]); done.
Qed.

(** X17: what [validateSFAddress] of lib/validators.js accepts.  An
    address is in the region exactly when, in lower case, it holds [sf],
    [san francisco], [sanfrancisco] or [san fran] as a word of its own,
    or a zip code [940dd] or [9410d] to [9418d] as a word of its own, or
    what the pattern built from [s.f.] finds: [s.f] at the beginning of a
    word, any character but a line terminator, and a word boundary after
    it. *)
Theorem validateSFAddress_spec (a : str) :
  Validators.validateSFAddress (JStr a) = true <-> library_in_region (toLowerCase a).
Proof.
  unfold Validators.validateSFAddress, library_in_region.
  cbn [existsb Validators.sfIndicators].
  rewrite !orb_true_iff, !test_found, zip_found, abbreviation_found.
  rewrite !indicator_whole_word by reflexivity.
  split.
  - intros [[Hw|[Hw|[Hw|[Hab|[Hw|Hf]]]]]|Hz]; try done; try (by right; left);
      try (by right; right);
      left; eexists; (split; [|exact Hw]); cbn [In]; auto.
  - intros [(w & Hin & Hw)|[Hab|Hz]].
    + cbn [In] in Hin. destruct Hin as [<-|[<-|[<-|[<-|[]]]]]; left; auto 10.
    + left. auto 10.
    + by right.
Qed.

Lemma includes_true_occurs s w : includes s w = true <-> occurs w s.
Proof. apply includes_spec. Qed.

(** The zip pattern of the dispatchers. *)
Lemma dispatcher_zip_found s : found Api.re_zip s <-> exists z, zip_like z /\ occurs z s.
Proof.
  unfold found, Api.re_zip, word, zip_like, occurs.
  cbn [seq_of lit list_ascii_of_string matches]. split.
  - intros (pre & post & c' & -> & c2 & (c1 & H9 & H4) & c3 & Hd3 & c4 & Hd4 & Hd5).
    apply chr_match in H9 as (r1 & Hs1 & ->).
    apply chr_match in H4 as (r2 & Hs2 & ->).
    destruct Hd3 as (d3 & r3 & Hs3 & Hp3 & ->).
    destruct Hd4 as (d4 & r4 & Hs4 & Hp4 & ->).
    destruct Hd5 as (d5 & r5 & Hs5 & Hp5 & ->).
    cbn [snd position] in *. subst.
    exists ("9"%char :: "4"%char :: [d3; d4; d5]). split; [by exists d3, d4, d5|].
    by exists pre, r5.
  - intros (z & (d3 & d4 & d5 & -> & Hp3 & Hp4 & Hp5) & pre & post & ->).
    exists pre, ("9"%char :: "4"%char :: d3 :: d4 :: d5 :: post).
    eexists. split; [done|].
    exists (Some "4"%char, d3 :: d4 :: d5 :: post). split.
    { exists (Some "9"%char, "4"%char :: d3 :: d4 :: d5 :: post).
      split; apply chr_match; by eexists. }
    exists (Some d3, d4 :: d5 :: post). split; [by exists d3, (d4 :: d5 :: post)|].
    exists (Some d4, d5 :: post). split; [by exists d4, (d5 :: post)|].
    by exists d5, post.
Qed.

Lemma server_validateSFAddress_unfold a :
  Server.validateSFAddress (JStr a) = true <-> dispatcher_in_region (toLowerCase a).
Proof.
  unfold Server.validateSFAddress, dispatcher_in_region.
  cbn [existsb Server.sfIndicators].
  rewrite !orb_true_iff, !test_found, dispatcher_zip_found, !includes_true_occurs.
  split.
  - intros [[Hw|[Hw|[Hw|Hf]]]|Hz]; try done; try (by right);
      left; eexists; (split; [|exact Hw]); cbn [In]; auto.
  - intros [(w & Hin & Hw)|Hz]; [|by right].
    cbn [In] in Hin. destruct Hin as [<-|[<-|[<-|[]]]]; left; auto.
Qed.

Lemma occurs_inside w s pre post : occurs w s -> occurs w (pre ++ s ++ post).
Proof.
  intros (x & y & ->). exists (pre ++ x), (y ++ post).
  by rewrite <- !app_assoc.
Qed.

(** X18: what the classifier of the two dispatchers accepts.
    [validateSFAddress] of index.js is true exactly when the address, in
    lower case, holds [sf], [san francisco] or [sanfrancisco] anywhere,
    or the digits [94], a [0] or a [1], and two more digits anywhere; the
    copy of api/mcp.js returns the same on every string; and an address
    classified in the region stays so whatever text is put before or
    after it. *)
Theorem dispatcher_validateSFAddress (a : str) :
  (Server.validateSFAddress (JStr a) = true <->
   dispatcher_in_region (toLowerCase a)) /\
  Api.validateSFAddress (JStr a) = Return (Server.validateSFAddress (JStr a)) /\
  (forall pre post,
     Server.validateSFAddress (JStr a) = true ->
     Server.validateSFAddress (JStr (pre ++ a ++ post)) = true).
Proof.
  split; [apply server_validateSFAddress_unfold|]. split; [done|].
  intros pre post. rewrite !server_validateSFAddress_unfold.
  unfold toLowerCase. rewrite !map_app.
  intros [(w & Hin & Hw)|(z & Hz & Hw)]; [left|right]; eexists;
    (split; [eassumption|]); by apply occurs_inside.
Qed.

End ClassifierMore.

(** ** Start-up of the stdio server *)

Module StartupFacts.
Import Js Regex Booking EmailSpec EmailFacts Startup.

Lemma email_text_nonempty t : email_text t -> t <> [].
Proof. intros (l & m & r & -> & Hl & _). by destruct l. Qed.

Lemma validateEnvironment_passed penv :
  validateEnvironment penv = Passed <->
  exists key from_email partner_emails,
    Api.RESEND_API_KEY penv = Some key /\ key <> [] /\
    Api.FROM_EMAIL penv = Some from_email /\
    Api.PARTNER_EMAILS penv = Some partner_emails /\
    email_text from_email /\
    Forall (fun e => email_text (trim e)) (split_on "," partner_emails).
Proof.
  assert (Hparts : forall p,
    forallb (fun email => test emailRegex (trim email)) (split_on "," p) = true <->
    Forall (fun e => email_text (trim e)) (split_on "," p)).
  { intros p. rewrite forallb_forall, Forall_forall. unfold emailRegex.
    split; intros Hall e He.
    - apply emailRegex_spec, Hall. by apply list_elem_of_In.
    - apply emailRegex_spec, Hall. by apply list_elem_of_In. }
  destruct penv as [key f p]. unfold validateEnvironment.
  cbn [Api.RESEND_API_KEY Api.FROM_EMAIL Api.PARTNER_EMAILS List.filter snd].
  split.
  - destruct key as [[|k0 key]|], f as [[|f0 f]|], p as [[|p0 p]|];
      try (by cbn); cbn [missing_var truthy negb length Nat.ltb Nat.leb].
    destruct (test emailRegex (f0 :: f)) eqn:Hf; cbn [negb]; [|done].
    destruct (forallb _ _) eqn:Hp; [|done]. intros _.
    exists (k0 :: key), (f0 :: f), (p0 :: p). repeat split; try done.
    + by apply emailRegex_spec.
    + by apply Hparts.
  - intros (key' & f' & p' & [= ->] & Hkey & [= ->] & [= ->] & Hf & Hp).
    pose proof (email_text_nonempty _ Hf) as Hf0.
    assert (Hp0 : p' <> []).
    { intros ->. cbn in Hp. inversion Hp as [|? ? Hnil _]; subst.
      by apply email_text_nonempty in Hnil. }
    destruct key' as [|k0 key]; [done|]. destruct f' as [|f0 f]; [done|].
    destruct p' as [|p0 p]; [done|].
    cbn [missing_var truthy negb length Nat.ltb Nat.leb].
    apply emailRegex_spec in Hf. unfold emailRegex. rewrite Hf. cbn [negb].
    apply Hparts in Hp. unfold emailRegex in Hp. by rewrite Hp.
Qed.

(** X19: the stdio server only writes to well-formed addresses.
    [validateEnvironment] passes exactly when the three variables are set
    and not empty, [FROM_EMAIL] reads [local@name.rest] and so does every
    entry of [PARTNER_EMAILS] between commas, once trimmed; so in a
    process that got past it the sender and every recipient of a message
    the handler hands to the mail transport are of that form. *)
Theorem startup_guards_addresses penv :
  (validateEnvironment penv = Passed <->
   exists key from_email partner_emails,
     Api.RESEND_API_KEY penv = Some key /\ key <> [] /\
     Api.FROM_EMAIL penv = Some from_email /\
     Api.PARTNER_EMAILS penv = Some partner_emails /\
     email_text from_email /\
     Forall (fun e => email_text (trim e)) (split_on "," partner_emails)) /\
  (forall env notifier request email,
     server_env penv = Some env ->
     In email (Server.sent (Server.call_tool env notifier request)) ->
     email_text (from email) /\ Forall email_text (to email)).
Proof.
  split; [apply validateEnvironment_passed|].
  intros env notifier request email Henv.
  unfold server_env in Henv.
  destruct (validateEnvironment penv) eqn:Hpass; [|done].
  apply validateEnvironment_passed in Hpass
    as (key & f & p & _ & _ & Hf & Hp & Hfrom & Hto).
  rewrite Hf, Hp in Henv. injection Henv as <-.
  unfold Server.call_tool.
  destruct (Api.is_text _ _); [|by intros []].
  destruct (negb _ || negb _ || negb _); [by intros []|].
  destruct (_ <? 2); [by intros []|].
  destruct (negb (Server.valid _)); [by intros []|].
  destruct (_ <? 10); [by intros []|].
  destruct (negb (Server.validateSFAddress _)); [by intros []|].
  cbn [Server.sent In Server.FROM_EMAIL Server.PARTNER_EMAILS].
  intros [<-|[]]. cbn [from to]. split; [done|].
  by apply Forall_map.
Qed.

End StartupFacts.

(** ** A clean booking from end to end *)

Module BookingFacts.
Import Js Regex RegexFacts Booking PhoneSpec DispatchSpec.
Import MessageFacts SanitizerMore DeclineFacts.

(** X20: a clean booking is forwarded as it was written.  Let a request
    carry a name and an address without white space at either end, free
    of [<], [>], double quotes and apostrophes, of 2 to 100 and of at most
    200 characters, a phone number holding ten digits, and let the
    dispatchers' classifier accept the address.  Then the HTTP handler,
    for a POST of [tools/call] whose body is within 10000 characters,
    having admitted the client and with the key of the mail service set,
    hands exactly one message to the mail transport, with the name and
    the address unchanged and the phone number as DDD-DDD-DDDD; so does
    the stdio server when the address has at least 10 characters. *)
Theorem clean_booking_forwarded (n p a : str) :
  trim n = n -> trim a = a ->
  2 <= len n <= 100 -> 0 < len a <= 200 ->
  Forall (fun c => Validators.is_special c = false) n ->
  Forall (fun c => Validators.is_special c = false) a ->
  length (digits_of p) = 10%nat ->
  Server.validateSFAddress (JStr a) = true ->
  (forall env notifier now requestStore req,
     books req (Scenarios.booking (JStr n) (JStr p) (JStr a)) ->
     Api.body_json_length req <= 10000 ->
     fst (Api.checkRateLimit (Api.clientIp req) now requestStore) = true ->
     Api.initResend env = true ->
     Api.sent (Api.handler env notifier now requestStore req) =
       [{| from := Api.env_or (Api.FROM_EMAIL env) (lit "onboarding@resend.dev");
           to := map trim (split_on ","
                   (Api.env_or (Api.PARTNER_EMAILS env) (lit "ranadaytoday@outlook.com")));
           subject := "Cleaning Request - SF";
           customer_name := n;
           customer_phone := Some (canonical (digits_of p));
           customer_address := a |}]) /\
  (forall env notifier,
     10 <= len a ->
     Server.sent (Server.call_tool env notifier
                    (Scenarios.call (Scenarios.booking (JStr n) (JStr p) (JStr a)))) =
       [{| from := Server.FROM_EMAIL env;
           to := map trim (split_on "," (Server.PARTNER_EMAILS env));
           subject := "Cleaning Request - SF";
           customer_name := n;
           customer_phone := Some (canonical (digits_of p));
           customer_address := a |}]).
Proof.
  intros Hn Ha Hnlen Halen Hnc Hac Hp Hsf.
  set (args := Scenarios.booking (JStr n) (JStr p) (JStr a)).
  destruct (sanitizeString_keeps_clean_parts n 100 Hn ltac:(lia) Hnc) as [Hn1 Hn2].
  destruct (sanitizeString_keeps_clean_parts a 200 Ha ltac:(lia) Hac) as [Ha1 Ha2].
  assert (Hpne : p <> []) by (by intros ->).
  assert (Hnne : n <> []) by (intros ->; unfold len in Hnlen; cbn in Hnlen; lia).
  assert (Hane : a <> []) by (intros ->; unfold len in Halen; cbn in Halen; lia).
  split.
  - intros env notifier now requestStore req Hbooks Hsize Hadm Hkey.
    destruct (handler_books env notifier now requestStore req args
                (conj Hbooks Hsize) Hadm)
      as [_ ->].
    unfold Api.request_cleaning, args, Scenarios.booking.
    cbn [name phone address truthy].
    destruct n as [|n0 n']; [done|]. destruct p as [|p0 p']; [done|].
    destruct a as [|a0 a']; [done|]. cbn [negb orb].
    rewrite Hn1, Ha1.
    destruct (Z.ltb_spec (len (n0 :: n')) 2); [lia|].
    rewrite api_validatePhone_unfold, Hp. cbn [Nat.eqb Api.valid Api.cleaned negb].
    change (Api.validateSFAddress (JStr (a0 :: a')))
      with (Return (Server.validateSFAddress (JStr (a0 :: a')))).
    rewrite Hsf, Hkey. cbn [negb snd]. done.
  - intros env notifier Hlong.
    unfold Server.call_tool, Scenarios.call, args, Scenarios.booking.
    cbn [Server.tool Server.arguments arguments_or_empty name phone address truthy].
    rewrite (proj2 (DispatcherFacts.is_text_spec _ _) eq_refl).
    destruct n as [|n0 n']; [done|]. destruct p as [|p0 p']; [done|].
    destruct a as [|a0 a']; [done|]. cbn [negb orb].
    rewrite Hn2, Ha2.
    destruct (Z.ltb_spec (len (n0 :: n')) 2); [lia|].
    rewrite server_validatePhone_unfold, Hp. cbn [Nat.eqb Server.valid Server.cleaned negb].
    destruct (Z.ltb_spec (len (a0 :: a')) 10); [lia|].
    rewrite Hsf. cbn [negb Server.sent]. done.
Qed.

End BookingFacts.

(** ** The key of the rate limiter *)

Module HeaderFacts.
Import Js Booking.

Lemma fresh_key_admitted (ip : string) now (requestStore : gmap string (list Z)) :
  requestStore !! ip = None ->
  fst (Api.checkRateLimit ip now requestStore) = true.
Proof. intros Hnone. unfold Api.checkRateLimit. by rewrite Hnone. Qed.

Lemma request_cleaning_not_429 env notifier args r :
  fst (Api.request_cleaning env notifier args) = Some r -> Api.status r <> 429.
Proof.
  unfold Api.request_cleaning, Api.internal_error, Api.json.
  repeat (match goal with
          | |- context [if ?b then _ else _] => destruct b
          | |- context [match ?x with Return _ => _ | Throw _ => _ end] => destruct x
          | |- context [match ?x with Delivered => _ | _ => _ end] => destruct x
          end; cbn [fst]);
    try (by intros [= <-]); done.
Qed.

(** X21: the limiter counts by a header the client writes.  The key of
    [checkRateLimit] is the [x-forwarded-for] header when there is one;
    so, whatever the store holds, there is a header value with which a
    request is admitted and is not answered 429: a client that changes
    the header with every request is never limited. *)
Theorem limiter_trusts_header (requestStore : gmap string (list Z)) :
  exists h : string,
    forall env notifier now req,
      Api.x_forwarded_for req = Some h ->
      Api.clientIp req = h /\
      fst (Api.checkRateLimit (Api.clientIp req) now requestStore) = true /\
      (forall r,
         Api.response (Api.handler env notifier now requestStore req) = Some r ->
         Api.status r <> 429).
Proof.
  destruct (exist_fresh (dom requestStore ∪ {[ EmptyString ]})) as [h Hh].
  apply not_elem_of_union in Hh as [Hdom Hne].
  apply not_elem_of_dom in Hdom. apply not_elem_of_singleton in Hne.
  exists h. intros env notifier now req Hreq.
  assert (Hip : Api.clientIp req = h).
  { unfold Api.clientIp. rewrite Hreq. by destruct h. }
  split; [done|]. rewrite Hip.
  pose proof (fresh_key_admitted h now requestStore Hdom) as Hadm.
  split; [done|]. intros r. unfold Api.handler. rewrite Hip.
  destruct (bool_decide (Api.http_method req = "OPTIONS"%string));
    [by intros [= <-]|].
  destruct (bool_decide (Api.http_method req = "POST"%string)); cbn [negb];
    [|by intros [= <-]].
  destruct (Api.checkRateLimit h now requestStore) as [adm st].
  cbn [fst] in Hadm. subst adm. cbn [negb].
  destruct (Api.body req) as [b|]; [|by intros [= <-]].
  destruct (_ >? _); [by intros [= <-]|].
  destruct (Api.is_text _ _); [by intros [= <-]|].
  destruct (Api.is_text _ _); [by intros [= <-]|].
  destruct (Api.params b) as [p|]; [|by intros [= <-]].
  destruct (_ && _); [|by intros [= <-]].
  destruct (Api.request_cleaning _ _ _) as [r0 mails] eqn:Hrc. cbn [Api.response].
  intros ->. apply (request_cleaning_not_429 env notifier
                      (arguments_or_empty (Api.arguments p))).
  by rewrite Hrc.
Qed.

End HeaderFacts.

(** ** Instances *)

Module FurtherExamples.
Import Js Regex Booking RateLimiting Traffic Scenarios PhoneSpec EmailSpec.

Lemma admissions_bounded_witness :
  Z.of_nat (count_admitted_within "user1"%string 40 history (new 3 1000)) <= Z.max 0 3.
Proof.
  apply (RateLimiterMore.admissions_bounded 3 1000 history "user1"%string 40).
  - repeat (apply Forall_cons; split); try apply Forall_nil; lia.
  - repeat (apply Forall_cons; split); try apply Forall_nil; reflexivity.
Defined.

Lemma cleanup_unobservable_witness :
  getRemaining "user1"%string 40 (cleanup 35 (exec_all history (new 3 1000))) =
    getRemaining "user1"%string 40 (exec_all history (new 3 1000)) /\
  fst (checkLimit "user1"%string 40 None (cleanup 35 (exec_all history (new 3 1000)))) =
    fst (checkLimit "user1"%string 40 None (exec_all history (new 3 1000))).
Proof.
  apply (RateLimiterMore.cleanup_unobservable
           (exec_all history (new 3 1000)) 35 40 "user1"%string None).
  lia.
Defined.

Lemma cleanup_leaves_recent_witness :
  [10; 30] <> [] /\
  Forall (fun time => 1005 - time < windowMs (exec_all history (new 3 1000))) [10; 30] /\
  exists l0,
    requests (exec_all history (new 3 1000)) !! "user1"%string = Some l0 /\
    [10; 30] = recent (exec_all history (new 3 1000)) 1005 l0.
Proof.
  apply (RateLimiterMore.cleanup_leaves_recent
           (exec_all history (new 3 1000)) 1005 "user1"%string [10; 30]).
  vm_compute. reflexivity.
Defined.

Lemma checkLimit_isolated_witness :
  getRemaining "user2"%string 10
      (snd (checkLimit "user1"%string 5 (Some 5) (new 3 1000))) =
    getRemaining "user2"%string 10 (new 3 1000) /\
  fst (checkLimit "user2"%string 10 None
         (snd (checkLimit "user1"%string 5 (Some 5) (new 3 1000)))) =
    fst (checkLimit "user2"%string 10 None (new 3 1000)).
Proof.
  apply (RateLimiterMore.checkLimit_isolated
           (new 3 1000) "user1"%string "user2"%string 5 10 (Some 5) None).
  - discriminate.
  - intros t0 [= <-]. lia.
Defined.

Lemma emails_rate_limited_witness :
  Z.of_nat (emailed_within "127.0.0.1" 10 env two_bookings ∅) <= Api.RATE_LIMIT.
Proof.
  apply (TrafficFacts.emails_rate_limited env two_bookings "127.0.0.1"%string 10).
  repeat (apply Forall_cons; split); try apply Forall_nil; cbn; lia.
Defined.

Lemma store_never_shrinks_witness :
  is_Some (store_after env two_bookings {[ "10.0.0.7"%string := [0] ]}
             !! "10.0.0.7"%string).
Proof.
  apply (TrafficFacts.store_never_shrinks env two_bookings
           {[ "10.0.0.7"%string := [0] ]} "10.0.0.7"%string).
  exists [0]. vm_compute. reflexivity.
Defined.

Lemma library_phone_in_dispatcher_witness :
  (length (digits_of (lit "(415) 555-1234")) = 10%nat \/
   length (digits_of (lit "(415) 555-1234")) = 11%nat) /\
  (Server.valid (Server.validatePhone (JStr (lit "(415) 555-1234"))) = true <->
   length (digits_of (lit "(415) 555-1234")) = 10%nat) /\
  (length (digits_of (lit "(415) 555-1234")) = 10%nat ->
   Server.cleaned (Server.validatePhone (JStr (lit "(415) 555-1234"))) =
     Validators.cleaned (Validators.validatePhone (JStr (lit "(415) 555-1234")))) /\
  exists r,
    Api.validatePhone (JStr (lit "(415) 555-1234")) = Return r /\
    (Api.valid r = true <-> length (digits_of (lit "(415) 555-1234")) = 10%nat) /\
    (length (digits_of (lit "(415) 555-1234")) = 10%nat ->
     Api.cleaned r =
       Validators.cleaned (Validators.validatePhone (JStr (lit "(415) 555-1234")))).
Proof.
  apply (MessageFacts.library_phone_in_dispatcher (lit "(415) 555-1234")).
  vm_compute. reflexivity.
Defined.

Lemma sanitizeString_keeps_clean_witness :
  Api.sanitizeString (JStr (lit "John Doe")) 100 = lit "John Doe" /\
  Server.sanitizeString (JStr (lit "John Doe")) 100 = lit "John Doe" /\
  Validators.sanitizeString (JStr (lit "John Doe")) 100 = lit "John Doe".
Proof.
  destruct (SanitizerMore.sanitizeString_keeps_clean (lit "John Doe") 100)
    as [Hdispatchers Hlibrary].
  - vm_compute. reflexivity.
  - vm_compute. discriminate.
  - split; [|split].
    + apply Hdispatchers. repeat (apply Forall_cons; split); try apply Forall_nil;
        reflexivity.
    + apply Hdispatchers. repeat (apply Forall_cons; split); try apply Forall_nil;
        reflexivity.
    + apply Hlibrary. repeat (apply Forall_cons; split); try apply Forall_nil;
        reflexivity.
Defined.

Lemma clean_booking_forwarded_witness :
  Api.sent (Api.handler env delivers 0 ∅ (post john_doe)) =
    [{| from := lit "test@example.com";
        to := [lit "partner@example.com"];
        subject := "Cleaning Request - SF";
        customer_name := lit "John Doe";
        customer_phone := Some (lit "415-555-1234");
        customer_address := lit "123 Market St, San Francisco, CA 94105" |}] /\
  Server.sent (Server.call_tool server_env delivers (call john_doe)) =
    [{| from := lit "test@example.com";
        to := [lit "partner@example.com"];
        subject := "Cleaning Request - SF";
        customer_name := lit "John Doe";
        customer_phone := Some (lit "415-555-1234");
        customer_address := lit "123 Market St, San Francisco, CA 94105" |}].
Proof.
  destruct (BookingFacts.clean_booking_forwarded
              (lit "John Doe") (lit "4155551234")
              (lit "123 Market St, San Francisco, CA 94105"))
    as [Hhttp Hstdio].
  - vm_compute. reflexivity.
  - vm_compute. reflexivity.
  - vm_compute. split; discriminate.
  - vm_compute. split; [reflexivity|discriminate].
  - repeat (apply Forall_cons; split); try apply Forall_nil; reflexivity.
  - repeat (apply Forall_cons; split); try apply Forall_nil; reflexivity.
  - vm_compute. reflexivity.
  - vm_compute. reflexivity.
  - split.
    + apply (Hhttp env delivers 0 ∅ (post john_doe)).
      * apply DispatcherExamples.post_books.
      * vm_compute. discriminate.
      * vm_compute. reflexivity.
      * reflexivity.
    + apply (Hstdio server_env delivers). vm_compute. discriminate.
Defined.

Lemma startup_guards_addresses_witness :
  Startup.validateEnvironment env = Startup.Passed /\
  email_text (lit "test@example.com") /\
  Forall email_text [lit "partner@example.com"].
Proof.
  split; [vm_compute; reflexivity|].
  apply (proj2 (StartupFacts.startup_guards_addresses env) server_env delivers
           (call john_doe)
           {| from := lit "test@example.com";
              to := [lit "partner@example.com"];
              subject := "Cleaning Request - SF";
              customer_name := lit "John Doe";
              customer_phone := Some (lit "415-555-1234");
              customer_address := lit "123 Market St, San Francisco, CA 94105" |}).
  - vm_compute. reflexivity.
  - left. vm_compute. reflexivity.
Defined.

End FurtherExamples.
